(** * TREES course editor: gates, pairs, tracks and segment times

    A shallow embedding of the client-side editing model of
    [public/assets/js] (state.js, computed.js, methods.js) together with the
    properties of its gate/pair aggregator, its course-editing operations and
    its segment-time orchestrator.

    Conventions of the embedding:
    - JS numbers used as identifiers ([pairId], course ids) are integers [Z];
      coordinates and the buffer distance are binary64 floats, as in JS;
    - a property that may be [undefined] is an [option]; [a || b] on such
      values tests JS truthiness (a string is truthy when it is not empty);
    - [Map] objects looked up by key are [gmap]s; the local [groups] map of
      the aggregator, whose iteration order is observable, is an insertion
      ordered association list;
    - objects mutated in place through a reference held by an array are
      updated at their position in the list that models the array;
    - the network is an oracle answering the n-th request of a run, and every
      request made is appended to a log kept in the state; an [async] method
      is run to completion at the point where it is called, so no other event
      is interleaved with it;
    - the icons' HTML and the map viewport are left out of the rendering
      layer, which keeps the position, colours and draggability of what is
      drawn. *)

From Stdlib Require Import Floats.
From stdpp Require Import gmap strings list pretty.

Open Scope Z_scope.
#[local] Set Warnings "-inexact-float".

(** ** Data model (state.js) *)

(** [type: 'start' | 'end'] *)
Inductive GateType : Set := type_start | type_end.

#[global] Instance GateType_eq_dec : EqDecision GateType.
Proof. solve_decision. Defined.

(** [{lat, lon}] : a checkpoint, a gate position of a payload, a map centre *)
Module LatLon.
Record t : Set := mk { lat : float; lon : float }.
End LatLon.

(** [{id, pairId, name, type, lat, lon, confirmed, editing}] *)
Module Gate.
Record t : Set := mk {
  id : string;
  pairId : Z;
  name : option string;
  type : GateType;
  lat : float;
  lon : float;
  confirmed : bool;
  editing : bool
}.

Definition set_editing (b : bool) (g : t) : t :=
  mk (id g) (pairId g) (name g) (type g) (lat g) (lon g) (confirmed g) b.

Definition set_confirmed (b : bool) (g : t) : t :=
  mk (id g) (pairId g) (name g) (type g) (lat g) (lon g) b (editing g).
End Gate.

(** An entry of the aggregator: [{pairId, name, start, end, checkpoints,
    confirmed, editing}], [start] and [end] being [null] until a gate of that
    type is seen. *)
Module Pair.
Record t : Set := mk {
  pairId : Z;
  name : string;
  start : option Gate.t;
  end_ : option Gate.t;
  checkpoints : list LatLon.t;
  confirmed : bool;
  editing : bool
}.
End Pair.

(** [{lat, lon, ele?, time?}] *)
Module Point.
Record t : Set := mk {
  lat : float;
  lon : float;
  ele : option float;
  time : option string
}.
End Point.

(** Values the server defines and the client stores without looking inside
    (segments, leaderboard entries). *)
Unset Elimination Schemes.
Inductive Json : Set :=
  | JNull
  | JBool (b : bool)
  | JNum (x : float)
  | JStr (s : string)
  | JArr (xs : list Json)
  | JObj (fields : list (string * Json)).
Set Elimination Schemes.

(** [{id, name, points, color}] and, once computed, [segmentTimes] *)
Module Track.
Record t : Set := mk {
  id : string;
  name : string;
  points : list Point.t;
  color : string;
  segmentTimes : option (list Json)
}.

Definition set_segmentTimes (v : list Json) (t0 : t) : t :=
  mk (id t0) (name t0) (points t0) (color t0) (Some v).
End Track.

(** A gate of a course payload and of a segment-times request:
    [{pairId, name, start:{lat,lon}, end:{lat,lon}, checkpoints}] *)
Module ApiGate.
Record t : Set := mk {
  pairId : Z;
  name : string;
  start : LatLon.t;
  end_ : LatLon.t;
  checkpoints : option (list LatLon.t)
}.
End ApiGate.

(** The part of [GET /courses/{id}] that the client reads. *)
Module Course.
Record t : Set := mk {
  gates : list ApiGate.t;
  buffer_m : float
}.
End Course.

(** What the rendering layer holds for each map primitive. *)
Inductive Layer : Set :=
  | GateMarker (lat lon : float) (bg border label : string) (draggable : bool)
  | CheckpointMarker (lat lon : float) (border : string) (number : nat)
      (draggable : bool)
  | TrackLine (latlngs : list LatLon.t) (color : string)
  | TrackMarker (pos : LatLon.t) (popup : string).

(** Requests sent to the API. *)
Inductive Request : Type :=
  | GetCourse (courseId : Z)
  | GetLeaderboard (courseId : Z)
  | PostSegmentTimes (points : list Point.t) (gates : list ApiGate.t)
      (buffer_m : float).

(** The reactive state of [createState], with the log of requests and of
    alerts shown. *)
Record State : Type := mkState {
  trackLayers : list Layer;
  selectedTrackIds : list string;
  gateMarkers : list Layer;
  checkpointMarkers : list Layer;
  tracks : list Track.t;
  timeGates : list Gate.t;
  pairCheckpoints : gmap Z (list LatLon.t);
  pairNames : gmap Z string;
  bufferMeters : float;
  isCreatingCourse : bool;
  selectedCourseId : option Z;
  leaderboard : list Json;
  selectedCourse : option Course.t;
  requests : list Request;
  alerts : list string
}.

Definition createState : State :=
  mkState [] [] [] [] [] [] ∅ ∅ 10 false None [] None [] [].

Definition set_trackLayers (v : list Layer) (s : State) : State :=
  mkState v (selectedTrackIds s) (gateMarkers s) (checkpointMarkers s)
    (tracks s) (timeGates s) (pairCheckpoints s) (pairNames s)
    (bufferMeters s) (isCreatingCourse s) (selectedCourseId s) (leaderboard s)
    (selectedCourse s) (requests s) (alerts s).

Definition set_selectedTrackIds (v : list string) (s : State) : State :=
  mkState (trackLayers s) v (gateMarkers s) (checkpointMarkers s)
    (tracks s) (timeGates s) (pairCheckpoints s) (pairNames s)
    (bufferMeters s) (isCreatingCourse s) (selectedCourseId s) (leaderboard s)
    (selectedCourse s) (requests s) (alerts s).

Definition set_markers (gm cm : list Layer) (s : State) : State :=
  mkState (trackLayers s) (selectedTrackIds s) gm cm
    (tracks s) (timeGates s) (pairCheckpoints s) (pairNames s)
    (bufferMeters s) (isCreatingCourse s) (selectedCourseId s) (leaderboard s)
    (selectedCourse s) (requests s) (alerts s).

Definition set_tracks (v : list Track.t) (s : State) : State :=
  mkState (trackLayers s) (selectedTrackIds s) (gateMarkers s)
    (checkpointMarkers s) v (timeGates s) (pairCheckpoints s) (pairNames s)
    (bufferMeters s) (isCreatingCourse s) (selectedCourseId s) (leaderboard s)
    (selectedCourse s) (requests s) (alerts s).

Definition set_timeGates (v : list Gate.t) (s : State) : State :=
  mkState (trackLayers s) (selectedTrackIds s) (gateMarkers s)
    (checkpointMarkers s) (tracks s) v (pairCheckpoints s) (pairNames s)
    (bufferMeters s) (isCreatingCourse s) (selectedCourseId s) (leaderboard s)
    (selectedCourse s) (requests s) (alerts s).

Definition set_pairCheckpoints (v : gmap Z (list LatLon.t)) (s : State) : State :=
  mkState (trackLayers s) (selectedTrackIds s) (gateMarkers s)
    (checkpointMarkers s) (tracks s) (timeGates s) v (pairNames s)
    (bufferMeters s) (isCreatingCourse s) (selectedCourseId s) (leaderboard s)
    (selectedCourse s) (requests s) (alerts s).

Definition set_pairNames (v : gmap Z string) (s : State) : State :=
  mkState (trackLayers s) (selectedTrackIds s) (gateMarkers s)
    (checkpointMarkers s) (tracks s) (timeGates s) (pairCheckpoints s) v
    (bufferMeters s) (isCreatingCourse s) (selectedCourseId s) (leaderboard s)
    (selectedCourse s) (requests s) (alerts s).

Definition set_bufferMeters (v : float) (s : State) : State :=
  mkState (trackLayers s) (selectedTrackIds s) (gateMarkers s)
    (checkpointMarkers s) (tracks s) (timeGates s) (pairCheckpoints s)
    (pairNames s) v (isCreatingCourse s) (selectedCourseId s) (leaderboard s)
    (selectedCourse s) (requests s) (alerts s).

Definition set_isCreatingCourse (v : bool) (s : State) : State :=
  mkState (trackLayers s) (selectedTrackIds s) (gateMarkers s)
    (checkpointMarkers s) (tracks s) (timeGates s) (pairCheckpoints s)
    (pairNames s) (bufferMeters s) v (selectedCourseId s) (leaderboard s)
    (selectedCourse s) (requests s) (alerts s).

Definition set_selectedCourseId (v : option Z) (s : State) : State :=
  mkState (trackLayers s) (selectedTrackIds s) (gateMarkers s)
    (checkpointMarkers s) (tracks s) (timeGates s) (pairCheckpoints s)
    (pairNames s) (bufferMeters s) (isCreatingCourse s) v (leaderboard s)
    (selectedCourse s) (requests s) (alerts s).

Definition set_leaderboard (v : list Json) (s : State) : State :=
  mkState (trackLayers s) (selectedTrackIds s) (gateMarkers s)
    (checkpointMarkers s) (tracks s) (timeGates s) (pairCheckpoints s)
    (pairNames s) (bufferMeters s) (isCreatingCourse s) (selectedCourseId s) v
    (selectedCourse s) (requests s) (alerts s).

Definition set_selectedCourse (v : option Course.t) (s : State) : State :=
  mkState (trackLayers s) (selectedTrackIds s) (gateMarkers s)
    (checkpointMarkers s) (tracks s) (timeGates s) (pairCheckpoints s)
    (pairNames s) (bufferMeters s) (isCreatingCourse s) (selectedCourseId s)
    (leaderboard s) v (requests s) (alerts s).

Definition set_requests (v : list Request) (s : State) : State :=
  mkState (trackLayers s) (selectedTrackIds s) (gateMarkers s)
    (checkpointMarkers s) (tracks s) (timeGates s) (pairCheckpoints s)
    (pairNames s) (bufferMeters s) (isCreatingCourse s) (selectedCourseId s)
    (leaderboard s) (selectedCourse s) v (alerts s).

Definition set_alerts (v : list string) (s : State) : State :=
  mkState (trackLayers s) (selectedTrackIds s) (gateMarkers s)
    (checkpointMarkers s) (tracks s) (timeGates s) (pairCheckpoints s)
    (pairNames s) (bufferMeters s) (isCreatingCourse s) (selectedCourseId s)
    (leaderboard s) (selectedCourse s) (requests s) v.

(** ** JS helpers *)

(** Truthiness of a string-or-undefined value. *)
Definition truthy (v : option string) : bool :=
  match v with
  | Some s => negb (String.eqb s "")
  | None => false
  end.

(** [a || b] where both may be undefined. *)
Definition js_or (a b : option string) : option string :=
  if truthy a then a else b.

(** [a || d] where [d] is a string. *)
Definition js_or_str (a : option string) (d : string) : string :=
  match a with
  | Some s => if String.eqb s "" then d else s
  | None => d
  end.

(** [x || d] on numbers: [0], [-0] and [NaN] are falsy. *)
Definition js_or_num (x d : float) : float :=
  if (PrimFloat.eqb x 0 || negb (PrimFloat.eqb x x))%bool then d else x.

(** Truthiness of an id that may be [null]. *)
Definition truthy_id (v : option Z) : bool :=
  match v with
  | Some n => negb (n =? 0)
  | None => false
  end.

(** [entry.start?.confirmed], [entry.end?.editing], ... under [!!] *)
Definition opt_flag (f : Gate.t → bool) (o : option Gate.t) : bool :=
  match o with
  | Some g => f g
  | None => false
  end.

(** The template literal [`Gate Pair ${pairId}`]. *)
Definition default_name (pairId : Z) : string :=
  "Gate Pair " +:+ pretty pairId.

(** [arr.indexOf(x)], [-1] when [x] is absent. *)
Fixpoint indexOf (x : string) (l : list string) : Z :=
  match l with
  | [] => -1
  | y :: l' =>
      if decide (y = x) then 0
      else let i := indexOf x l' in if decide (0 ≤ i) then i + 1 else -1
  end.

(** A local [Map] whose iteration order matters: keys in insertion order,
    [set] on a present key keeps its position. *)
Module OMap.
Section Ops.
Context {V : Type}.

Fixpoint get (k : Z) (m : list (Z * V)) : option V :=
  match m with
  | [] => None
  | (k', v) :: m' => if decide (k = k') then Some v else get k m'
  end.

Fixpoint set (k : Z) (v : V) (m : list (Z * V)) : list (Z * V) :=
  match m with
  | [] => [(k, v)]
  | (k', v') :: m' =>
      if decide (k = k') then (k, v) :: m' else (k', v') :: set k v m'
  end.

Definition values (m : list (Z * V)) : list V := snd <$> m.
End Ops.
End OMap.

(** ** The aggregator (computed.js, [gatePairs]) *)

Section Aggregator.
Variable pairCheckpoints : gmap Z (list LatLon.t).
Variable pairNames : gmap Z string.

(** [this.pairCheckpoints.get(id) || []] *)
Definition checkpoints_of (pairId : Z) : list LatLon.t :=
  default [] (pairCheckpoints !! pairId).

(** The object stored by [groups.set] when the pair id is new. *)
Definition fresh_entry (g : Gate.t) : Pair.t :=
  let customName := pairNames !! Gate.pairId g in
  Pair.mk (Gate.pairId g)
    (js_or_str (js_or customName (Gate.name g)) (default_name (Gate.pairId g)))
    None None
    (checkpoints_of (Gate.pairId g))
    false false.

(** [entry[g.type] = g] followed by the recomputation of the name, the
    two flags and the checkpoints. *)
Definition update_entry (entry : Pair.t) (g : Gate.t) : Pair.t :=
  let start' :=
    match Gate.type g with
    | type_start => Some g
    | type_end => Pair.start entry
    end in
  let end' :=
    match Gate.type g with
    | type_start => Pair.end_ entry
    | type_end => Some g
    end in
  let customName := pairNames !! Gate.pairId g in
  Pair.mk (Pair.pairId entry)
    (js_or_str (js_or customName (Gate.name g)) (Pair.name entry))
    start' end'
    (checkpoints_of (Gate.pairId g))
    (opt_flag Gate.confirmed start' && opt_flag Gate.confirmed end')
    (opt_flag Gate.editing start' || opt_flag Gate.editing end').

(** One iteration of [for (const g of this.timeGates)]. The entry is an
    object shared with the map, so mutating it is a [set] at its key. *)
Definition group_step (groups : list (Z * Pair.t)) (g : Gate.t)
  : list (Z * Pair.t) :=
  let entry :=
    match OMap.get (Gate.pairId g) groups with
    | Some e => e
    | None => fresh_entry g
    end in
  OMap.set (Gate.pairId g) (update_entry entry g) groups.

Definition groups_of (timeGates : list Gate.t) : list (Z * Pair.t) :=
  fold_left group_step timeGates [].

(** [p.start && p.end] *)
Definition complete (p : Pair.t) : bool :=
  bool_decide (is_Some (Pair.start p)) && bool_decide (is_Some (Pair.end_ p)).

Definition gatePairs (timeGates : list Gate.t) : list Pair.t :=
  filter (λ p, complete p = true) (OMap.values (groups_of timeGates)).
End Aggregator.

(** ** The network and the effects of a method (methods.js) *)

(** What [fetch] does for one request: it throws, or it resolves to a
    response with its [ok] flag, the message of an error body, and its JSON
    body when that parses. *)
Inductive Fetched (T : Type) : Type :=
  | fetch_threw (msg : string)
  | fetch_response (ok : bool) (detail : string) (body : option T).
Arguments fetch_threw {T} msg.
Arguments fetch_response {T} ok detail body.

(** [{ entries }] of [GET /leaderboard/{id}] *)
Record LeaderboardData : Set := { entries : option (list Json) }.

(** [{ segments }] of [POST /segment-times] *)
Record SegmentData : Set := { segments : option (list Json) }.

(** The server: its answer to the request made when [n] requests were made
    before it, for each endpoint. *)
Record Server : Type := {
  course_at : nat → Fetched Course.t;
  leaderboard_at : nat → Fetched LeaderboardData;
  segments_at : nat → Fetched SegmentData
}.

(** A method body: it reads and writes the state and returns, or throws an
    error message. *)
Definition Eff (A : Type) : Type := State → (string + A) * State.

Definition ret {A} (a : A) : Eff A := λ s, (inr a, s).

Definition throw {A} (msg : string) : Eff A := λ s, (inl msg, s).

Definition bind {A B} (m : Eff A) (k : A → Eff B) : Eff B :=
  λ s, match m s with
       | (inr a, s') => k a s'
       | (inl e, s') => (inl e, s')
       end.

Definition get_state : Eff State := λ s, (inr s, s).

Definition modify (f : State → State) : Eff unit := λ s, (inr tt, f s).

(** [try { m } catch (e) { h(e) }] *)
Definition try_catch {A} (m : Eff A) (h : string → Eff A) : Eff A :=
  λ s, match m s with
       | (inl e, s') => h e s'
       | r => r
       end.

(** The state a method leaves. *)
Definition exec {A} (m : Eff A) (s : State) : State := snd (m s).

(** An [async] method called without [await]: the caller goes on whatever
    the outcome, and does not see a rejection. *)
Definition detached {A} (m : Eff A) : Eff unit := λ s, (inr tt, exec m s).

Declare Scope eff_scope.
Delimit Scope eff_scope with eff.
Notation "x ← m ; k" := (bind m (λ x, k))
  (at level 20, m at level 100, k at level 200, only parsing) : eff_scope.
Notation "m ;; k" := (bind m (λ _, k))
  (at level 100, k at level 200, only parsing, right associativity) : eff_scope.
Open Scope eff_scope.

(** [apiGet] and [apiPost]: the request goes out, then [if (!res.ok) throw],
    then [res.json()]. *)
Definition api_call {T} (req : Request) (answer : nat → Fetched T) : Eff T :=
  λ s,
    let s' := set_requests (requests s ++ [req]) s in
    match answer (length (requests s)) with
    | fetch_threw msg => (inl msg, s')
    | fetch_response false detail _ => (inl detail, s')
    | fetch_response true detail None => (inl detail, s')
    | fetch_response true _ (Some data) => (inr data, s')
    end.

Definition alert (msg : string) : Eff unit :=
  modify (λ s, set_alerts (alerts s ++ [msg]) s).

(** ** Drawing *)

Definition gate_marker (gate : Gate.t) : Layer :=
  let isStart := bool_decide (Gate.type gate = type_start) in
  let isEditing := Gate.editing gate in
  let isConfirmed := Gate.confirmed gate in
  let bg :=
    if isStart then (if isConfirmed then "#10b981" else "#f59e0b")
    else (if isConfirmed then "#111827" else "#f59e0b") in
  let border :=
    if isStart then (if isConfirmed then "#047857" else "#ea580c")
    else (if isConfirmed then "#ffffff" else "#ea580c") in
  let label := if isStart then "S" else "E" in
  GateMarker (Gate.lat gate) (Gate.lon gate) bg border label
    (isEditing || negb isConfirmed).

Definition checkpoint_markers (pair : Pair.t) : list Layer :=
  let cpBorder := if Pair.confirmed pair then "#10b981" else "#f59e0b" in
  imap (λ idx cp,
          CheckpointMarker (LatLon.lat cp) (LatLon.lon cp) cpBorder (idx + 1)%nat
            (Pair.editing pair))
       (Pair.checkpoints pair).

Definition redrawGates_state (s : State) : State :=
  let pairs := gatePairs (pairCheckpoints s) (pairNames s) (timeGates s) in
  set_markers (gate_marker <$> timeGates s)
    (concat (checkpoint_markers <$> pairs)) s.

Definition redrawGates : Eff unit := modify redrawGates_state.

Definition track_layers (t0 : Track.t) : list Layer :=
  let latlngs := (λ p, LatLon.mk (Point.lat p) (Point.lon p)) <$> Track.points t0 in
  match head latlngs, last latlngs with
  | Some first, Some final =>
      [TrackLine latlngs (Track.color t0);
       TrackMarker first (Track.name t0 +:+ " - Start");
       TrackMarker final (Track.name t0 +:+ " - End")]
  | _, _ => []
  end.

Definition redrawTracks_state (s : State) : State :=
  let selected : gset string := list_to_set (selectedTrackIds s) in
  let toDraw :=
    filter (λ t0, Track.id t0 ∈ selected ∧ Track.points t0 ≠ []) (tracks s) in
  set_trackLayers (concat (track_layers <$> toDraw)) s.

Definition redrawTracks : Eff unit := modify redrawTracks_state.

(** ** Methods (methods.js) *)

(** [gatePairsToApiPayload]: the confirmed pairs in wire format. *)
Definition api_gate (p : Pair.t) : option ApiGate.t :=
  match Pair.start p, Pair.end_ p with
  | Some s, Some e =>
      Some (ApiGate.mk (Pair.pairId p)
              (js_or_str (Some (Pair.name p)) (default_name (Pair.pairId p)))
              (LatLon.mk (Gate.lat s) (Gate.lon s))
              (LatLon.mk (Gate.lat e) (Gate.lon e))
              (Some ((λ c, LatLon.mk (LatLon.lat c) (LatLon.lon c))
                       <$> Pair.checkpoints p)))
  | _, _ => None
  end.

Definition gatePairsToApiPayload (s : State) : list ApiGate.t :=
  omap api_gate
    (filter (λ p, complete p && Pair.confirmed p = true)
       (gatePairs (pairCheckpoints s) (pairNames s) (timeGates s))).

(** [nextPairId]: [let i = 1; while (used.has(i)) i += 1; return i;]. The
    loop leaves after at most [size used] rounds, which is the fuel given. *)
Fixpoint next_free (fuel : nat) (used : gset Z) (i : Z) : Z :=
  match fuel with
  | O => i
  | S fuel' => if decide (i ∈ used) then next_free fuel' used (i + 1) else i
  end.

Definition nextPairId (s : State) : Z :=
  let used : gset Z := list_to_set (Gate.pairId <$> timeGates s) in
  next_free (size used) used 1.

(** [startNewCourse] *)
Definition startNewCourse : Eff unit :=
  modify (set_selectedCourseId None);;
  modify (set_selectedCourse None);;
  modify (set_timeGates []);;
  modify (set_pairCheckpoints ∅);;
  modify (set_pairNames ∅);;
  modify (set_leaderboard []);;
  modify (set_bufferMeters 10);;
  modify (set_isCreatingCourse true);;
  redrawGates.

(** [addGatePair], given the centre of the map and the clock. *)
Definition addGatePair (c : LatLon.t) (now : Z) : Eff unit :=
  s ← get_state;
  let offset := 0.001%float in
  let nextPairId := nextPairId s in
  let start :=
    Gate.mk (pretty now +:+ "_S") nextPairId (Some (default_name nextPairId))
      type_start (LatLon.lat c + offset) (LatLon.lon c + offset) false true in
  let end_ :=
    Gate.mk (pretty now +:+ "_E") nextPairId (Some (default_name nextPairId))
      type_end (LatLon.lat c - offset) (LatLon.lon c - offset) false true in
  modify (λ s, set_timeGates (timeGates s ++ [start; end_]) s);;
  redrawGates.

(** The body of the [forEach] of [startEditing]:
    [g.editing = (g.pairId === pairId);
     if (g.pairId !== pairId && !g.confirmed) g.confirmed = false;] *)
Definition startEditing_gate (pairId : Z) (g : Gate.t) : Gate.t :=
  let g1 := Gate.set_editing (bool_decide (Gate.pairId g = pairId)) g in
  if bool_decide (Gate.pairId g1 ≠ pairId) && negb (Gate.confirmed g1)
  then Gate.set_confirmed false g1
  else g1.

Definition startEditing (pairId : Z) : Eff unit :=
  modify (λ s, set_timeGates (startEditing_gate pairId <$> timeGates s) s);;
  redrawGates.

(** [updatePairName] *)
Definition updatePairName (pairId : Z) (newName : string) : Eff unit :=
  modify (λ s, set_pairNames (<[pairId := newName]> (pairNames s)) s).

(** [toggleTrack] *)
Definition toggleTrack (trackId : string) : Eff unit :=
  s ← get_state;
  let i := indexOf trackId (selectedTrackIds s) in
  (if decide (0 ≤ i)
   then modify (λ s, set_selectedTrackIds (delete (Z.to_nat i) (selectedTrackIds s)) s)
   else modify (λ s, set_selectedTrackIds (selectedTrackIds s ++ [trackId]) s));;
  redrawTracks.

(** [removeTrack] *)
Definition removeTrack (trackId : string) : Eff unit :=
  modify (λ s, set_tracks (filter (λ t0, Track.id t0 ≠ trackId) (tracks s)) s);;
  s ← get_state;
  let i := indexOf trackId (selectedTrackIds s) in
  (if decide (0 ≤ i)
   then modify (λ s, set_selectedTrackIds (delete (Z.to_nat i) (selectedTrackIds s)) s)
   else ret tt);;
  redrawTracks.

Section Network.
Variable server : Server.

(** [fetchLeaderboard] *)
Definition fetchLeaderboard : Eff unit :=
  s ← get_state;
  match selectedCourseId s with
  | Some courseId =>
      if truthy_id (Some courseId) then
        try_catch
          (data ← api_call (GetLeaderboard courseId) (leaderboard_at server);
           modify (set_leaderboard (default [] (entries data))))
          (λ _, modify (set_leaderboard []))
      else modify (set_leaderboard [])
  | None => modify (set_leaderboard [])
  end.

(** [t.segmentTimes = v] for the track at position [i] of [this.tracks]. *)
Definition store_segmentTimes (i : nat) (v : list Json) : Eff unit :=
  modify (λ s, set_tracks (alter (Track.set_segmentTimes v) i (tracks s)) s).

(** The point sent for [p]: [{lat, lon, ele: p.ele ?? null, time: p.time ?? null}] *)
Definition request_point (p : Point.t) : Point.t :=
  Point.mk (Point.lat p) (Point.lon p) (Point.ele p) (Point.time p).

(** The loop [for (const t of this.tracks)] of [recalcAllSegmentTimes], at
    the track of position [i], [todo] being the tracks from there on. *)
Fixpoint recalc_loop (gates : list ApiGate.t) (buffer_m : float)
    (todo : list Track.t) (i : nat) : Eff unit :=
  match todo with
  | [] => ret tt
  | t0 :: rest =>
      (match Track.points t0 with
       | [] => store_segmentTimes i []
       | _ :: _ =>
           try_catch
             (data ← api_call
                       (PostSegmentTimes (request_point <$> Track.points t0)
                          gates buffer_m)
                       (segments_at server);
              store_segmentTimes i (default [] (segments data)))
             (λ _, store_segmentTimes i [])
       end);;
      recalc_loop gates buffer_m rest (S i)
  end.

(** [recalcAllSegmentTimes] *)
Definition recalcAllSegmentTimes : Eff unit :=
  s ← get_state;
  match tracks s with
  | [] => ret tt
  | _ :: _ =>
      let gates := gatePairsToApiPayload s in
      match gates with
      | [] => modify (λ s, set_tracks (Track.set_segmentTimes [] <$> tracks s) s)
      | _ :: _ =>
          let buffer_m := js_or_num (bufferMeters s) 10 in
          recalc_loop gates buffer_m (tracks s) 0
      end
  end.

(** [saveAndConfirmGate] *)
Definition saveAndConfirmGate (pairId : Z) : Eff unit :=
  s ← get_state;
  let pair :=
    head (filter (λ p, Pair.pairId p = pairId)
            (gatePairs (pairCheckpoints s) (pairNames s) (timeGates s))) in
  let newName := js_or_str (Pair.name <$> pair) (default_name pairId) in
  modify (λ s, set_pairNames (<[pairId := newName]> (pairNames s)) s);;
  modify (λ s, set_timeGates
                 ((λ g, if decide (Gate.pairId g ≠ pairId) then g
                        else Gate.mk (Gate.id g) (Gate.pairId g) (Some newName)
                               (Gate.type g) (Gate.lat g) (Gate.lon g) true false)
                    <$> timeGates s) s);;
  redrawGates;;
  detached recalcAllSegmentTimes;;
  detached fetchLeaderboard.

(** [removeGatePair] *)
Definition removeGatePair (pairId : Z) : Eff unit :=
  modify (λ s, set_timeGates (filter (λ g, Gate.pairId g ≠ pairId) (timeGates s)) s);;
  modify (λ s, set_pairCheckpoints (delete pairId (pairCheckpoints s)) s);;
  modify (λ s, set_pairNames (delete pairId (pairNames s)) s);;
  redrawGates;;
  detached recalcAllSegmentTimes.

(** One iteration of [for (const g of c.gates)] of [loadSelectedCourse]. *)
Definition load_gate (s : State) (g : ApiGate.t) : State :=
  let pid := ApiGate.pairId g in
  let start :=
    Gate.mk (pretty pid +:+ "_S") pid (Some (ApiGate.name g)) type_start
      (LatLon.lat (ApiGate.start g)) (LatLon.lon (ApiGate.start g)) true false in
  let end_ :=
    Gate.mk (pretty pid +:+ "_E") pid (Some (ApiGate.name g)) type_end
      (LatLon.lat (ApiGate.end_ g)) (LatLon.lon (ApiGate.end_ g)) true false in
  let s1 := set_timeGates (timeGates s ++ [start]) s in
  let s2 := set_timeGates (timeGates s1 ++ [end_]) s1 in
  let s3 :=
    match ApiGate.checkpoints g with
    | Some cps =>
        set_pairCheckpoints
          (<[pid := (λ cp, LatLon.mk (LatLon.lat cp) (LatLon.lon cp)) <$> cps]>
             (pairCheckpoints s2)) s2
    | None => s2
    end in
  set_pairNames (<[pid := ApiGate.name g]> (pairNames s3)) s3.

(** [loadSelectedCourse] *)
Definition loadSelectedCourse : Eff unit :=
  s ← get_state;
  match selectedCourseId s with
  | Some courseId =>
      if truthy_id (Some courseId) then
        try_catch
          (c ← api_call (GetCourse courseId) (course_at server);
           modify (set_selectedCourse (Some c));;
           modify (set_isCreatingCourse false);;
           modify (set_timeGates []);;
           modify (set_pairCheckpoints ∅);;
           modify (set_pairNames ∅);;
           modify (λ s, fold_left load_gate (Course.gates c) s);;
           modify (set_bufferMeters (Course.buffer_m c));;
           redrawGates;;
           fetchLeaderboard;;
           recalcAllSegmentTimes)
          (λ e, alert ("Load failed: " +:+ e))
      else ret tt
  | None => ret tt
  end.
(** The palette of [createState]. *)
Definition trackColors : list string :=
  ["#ef4444"; "#3b82f6"; "#10b981"; "#f59e0b"; "#8b5cf6"; "#ec4899";
   "#14b8a6"; "#111827"].

(** [processFile] from the point where the upload has answered with the
    tracks [data.tracks], a non-empty array of [{name, points}]; [now i] is
    the reading of [Date.now()] for the track of index [i]. The [loading]
    and [error] flags are not modelled. *)
Definition processFile_loaded (now : nat → Z)
    (data_tracks : list (string * list Point.t)) : Eff unit :=
  s ← get_state;
  let base := length (tracks s) in
  let newTracks :=
    imap (λ i t0,
            Track.mk (pretty (now i) +:+ "_" +:+ pretty i) (fst t0) (snd t0)
              (default "" (trackColors !! ((base + i) mod length trackColors)%nat))
              None)
         data_tracks in
  modify (λ s, set_tracks (tracks s ++ newTracks) s);;
  modify (λ s, set_selectedTrackIds (selectedTrackIds s ++ (Track.id <$> newTracks)) s);;
  redrawTracks;;
  s ← get_state;
  if existsb Pair.confirmed
       (gatePairs (pairCheckpoints s) (pairNames s) (timeGates s))
  then detached recalcAllSegmentTimes
  else ret tt.
End Network.

(** ** More methods (methods.js) and computed values (computed.js) *)

(** [isSelected] *)
Definition isSelected (trackId : string) (s : State) : bool :=
  bool_decide (trackId ∈ selectedTrackIds s).

(** [activeRoutes] *)
Definition activeRoutes (s : State) : list Track.t :=
  let ids : gset string := list_to_set (selectedTrackIds s) in
  filter (λ t0, Track.id t0 ∈ ids) (tracks s).

(** [deselectCourse] *)
Definition deselectCourse : Eff unit :=
  modify (set_selectedCourseId None);;
  modify (set_selectedCourse None);;
  modify (set_isCreatingCourse false);;
  modify (set_timeGates []);;
  modify (set_pairCheckpoints ∅);;
  modify (set_pairNames ∅);;
  modify (set_leaderboard []);;
  modify (set_bufferMeters 10);;
  redrawGates.

(** [addCheckpoint]: the new checkpoint is pushed on the array held by the
    map, created empty when the pair has none. A pair of the aggregator has
    a start gate; reading [pair.start.lat] of a pair without one would throw. *)
Definition addCheckpoint (pairId : Z) : Eff unit :=
  s ← get_state;
  match head (filter (λ p, Pair.pairId p = pairId)
                (gatePairs (pairCheckpoints s) (pairNames s) (timeGates s))) with
  | Some pair0 =>
      match Pair.start pair0 with
      | Some st =>
          let newCheckpoint := LatLon.mk (Gate.lat st) (Gate.lon st) in
          modify (λ s, match pairCheckpoints s !! pairId with
                       | Some _ => s
                       | None => set_pairCheckpoints (<[pairId := []]> (pairCheckpoints s)) s
                       end);;
          modify (λ s, set_pairCheckpoints
                         (alter (λ cps, cps ++ [newCheckpoint]) pairId (pairCheckpoints s)) s);;
          redrawGates
      | None => throw "TypeError"
      end
  | None => ret tt
  end.

(** [removeLastCheckpoint] *)
Definition removeLastCheckpoint (pairId : Z) : Eff unit :=
  s ← get_state;
  match pairCheckpoints s !! pairId with
  | Some checkpoints =>
      if decide (0 < length checkpoints)%nat then
        modify (λ s, set_pairCheckpoints
                       (<[pairId := take (pred (length checkpoints)) checkpoints]>
                          (pairCheckpoints s)) s);;
        redrawGates
      else ret tt
  | None => ret tt
  end.

Section GateMethods.
Variable server : Server.

(** [clearAllGates] *)
Definition clearAllGates : Eff unit :=
  modify (set_timeGates []);;
  modify (set_pairCheckpoints ∅);;
  modify (set_pairNames ∅);;
  redrawGates;;
  detached (recalcAllSegmentTimes server).
End GateMethods.

(** ** Vocabulary of the statements *)

(** The last gate of type [ty] and pair [k] in the flat collection: the one
    the aggregator keeps when several are present. *)
Definition last_gate (ty : GateType) (k : Z) (timeGates : list Gate.t)
  : option Gate.t :=
  last (filter (λ g, Gate.pairId g = k ∧ Gate.type g = ty) timeGates).

(** The name carried by the gates of pair [k]: the last truthy one. *)
Definition carried_name (k : Z) (timeGates : list Gate.t) : option string :=
  last (omap (λ g, if decide (Gate.pairId g = k)
                   then js_or (Gate.name g) None else None) timeGates).

(** Custom name, else gate-carried name, else the synthesized default. *)
Definition pair_name (pairNames : gmap Z string) (k : Z)
    (timeGates : list Gate.t) : string :=
  js_or_str (js_or (pairNames !! k) (carried_name k timeGates)) (default_name k).

(** The pair of id [k] as read off the flat collection and the two maps. *)
Definition pair_of (pairCheckpoints : gmap Z (list LatLon.t))
    (pairNames : gmap Z string) (k : Z) (timeGates : list Gate.t) : Pair.t :=
  let s := last_gate type_start k timeGates in
  let e := last_gate type_end k timeGates in
  Pair.mk k (pair_name pairNames k timeGates) s e
    (checkpoints_of pairCheckpoints k)
    (opt_flag Gate.confirmed s && opt_flag Gate.confirmed e)
    (opt_flag Gate.editing s || opt_flag Gate.editing e).

(** The pair ids whose gates are in edit mode. *)
Definition editing_ids (timeGates : list Gate.t) : list Z :=
  Gate.pairId <$> filter (λ g, Gate.editing g = true) timeGates.

(** At most one pair is being edited. *)
Definition at_most_one_editing (timeGates : list Gate.t) : Prop :=
  ∀ g1 g2, g1 ∈ timeGates → g2 ∈ timeGates →
    Gate.editing g1 = true → Gate.editing g2 = true →
    Gate.pairId g1 = Gate.pairId g2.

(** The gate model: the flat gates and the two maps keyed by pair id. *)
Definition same_gates (s s' : State) : Prop :=
  timeGates s' = timeGates s ∧
  pairCheckpoints s' = pairCheckpoints s ∧
  pairNames s' = pairNames s.

(** A method that relates the state it leaves to the state it found. *)
Definition keeps {A} (R : State → State → Prop) (m : Eff A) : Prop :=
  ∀ s, R s (snd (m s)).

(** The checkpoints [loadSelectedCourse] stores for a gate of the payload:
    a copy of its array, when it has one. *)
Definition with_checkpoints (g : ApiGate.t) (m : gmap Z (list LatLon.t))
  : gmap Z (list LatLon.t) :=
  match ApiGate.checkpoints g with
  | Some cps =>
      <[ApiGate.pairId g := (λ cp, LatLon.mk (LatLon.lat cp) (LatLon.lon cp)) <$> cps]> m
  | None => m
  end.

(** The two gates [loadSelectedCourse] makes of a gate of the payload. *)
Definition loaded_start (g : ApiGate.t) : Gate.t :=
  Gate.mk (pretty (ApiGate.pairId g) +:+ "_S") (ApiGate.pairId g)
    (Some (ApiGate.name g)) type_start
    (LatLon.lat (ApiGate.start g)) (LatLon.lon (ApiGate.start g)) true false.

Definition loaded_end (g : ApiGate.t) : Gate.t :=
  Gate.mk (pretty (ApiGate.pairId g) +:+ "_E") (ApiGate.pairId g)
    (Some (ApiGate.name g)) type_end
    (LatLon.lat (ApiGate.end_ g)) (LatLon.lon (ApiGate.end_ g)) true false.

(** A request that did not bring data back: [fetch] threw, the response was
    not [ok], or its body did not parse. *)
Definition failed {T} (r : Fetched T) : Prop :=
  match r with
  | fetch_threw _ => True
  | fetch_response ok _ body => ok = false ∨ body = None
  end.

(** [!t.points?.length] is false. *)
Definition has_points (t0 : Track.t) : bool :=
  match Track.points t0 with
  | [] => false
  | _ :: _ => true
  end.

(** The request made for a track. *)
Definition segment_request (gates : list ApiGate.t) (buffer_m : float)
    (t0 : Track.t) : Request :=
  PostSegmentTimes (request_point <$> Track.points t0) gates buffer_m.

(** What is stored for a track given the answer to its request. *)
Definition segment_result (r : Fetched SegmentData) : list Json :=
  match r with
  | fetch_response true _ (Some data) => default [] (segments data)
  | _ => []
  end.

(** The tracks after the loop of [recalcAllSegmentTimes], [n] requests
    having been made before it: each track with points gets the result of
    its own request, the next in line. *)
Fixpoint recalc_results (answers : nat → Fetched SegmentData) (n : nat)
    (todo : list Track.t) : list Track.t :=
  match todo with
  | [] => []
  | t0 :: rest =>
      if has_points t0
      then Track.set_segmentTimes (segment_result (answers n)) t0
             :: recalc_results answers (S n) rest
      else Track.set_segmentTimes [] t0 :: recalc_results answers n rest
  end.

(** How many times [x] is in [l]. *)
Definition occurrences (x : string) (l : list string) : nat :=
  length (filter (λ y, y = x) l).

(** The selected ids after [toggleTrack(x)]. *)
Definition toggle_ids (x : string) (l : list string) : list string :=
  if decide (0 ≤ indexOf x l) then delete (Z.to_nat (indexOf x l)) l
  else l ++ [x].

(** The gate of the payload that a loaded gate is saved as: the same, with
    an empty array for missing checkpoints. *)
Definition saved_gate (g : ApiGate.t) : ApiGate.t :=
  ApiGate.mk (ApiGate.pairId g) (ApiGate.name g) (ApiGate.start g) (ApiGate.end_ g)
    (Some (default [] (ApiGate.checkpoints g))).

(** The pair the aggregator makes of a loaded gate of the payload. *)
Definition loaded_pair (g : ApiGate.t) : Pair.t :=
  Pair.mk (ApiGate.pairId g) (ApiGate.name g)
    (Some (loaded_start g)) (Some (loaded_end g))
    (default [] (ApiGate.checkpoints g)) true false.

(** The markers are those of the gates and of the pairs of the state. *)
Definition markers_in_sync (s : State) : Prop :=
  gateMarkers s = gate_marker <$> timeGates s ∧
  checkpointMarkers s =
    concat (checkpoint_markers
              <$> gatePairs (pairCheckpoints s) (pairNames s) (timeGates s)).

(** The gate model and its markers. *)
Definition same_view (s s' : State) : Prop :=
  same_gates s s' ∧
  gateMarkers s' = gateMarkers s ∧ checkpointMarkers s' = checkpointMarkers s.

(** Whether a layer can be dragged; track layers cannot. *)
Definition draggable (l : Layer) : bool :=
  match l with
  | GateMarker _ _ _ _ _ d => d
  | CheckpointMarker _ _ _ _ d => d
  | TrackLine _ _ => false
  | TrackMarker _ _ => false
  end.

(** ** Sample states *)

(** The centre of the initial view of the map. *)
Definition centre : LatLon.t := LatLon.mk 49.35 (-123.10).

(** A new course in which [addGatePair] was clicked once, and twice. *)
Definition one_pair_state : State :=
  exec (addGatePair centre 1700000000000) (exec startNewCourse createState).

Definition two_pairs_state : State :=
  exec (addGatePair centre 1700000000001) one_pair_state.

Definition three_pairs_state : State :=
  exec (addGatePair centre 1700000000002) two_pairs_state.

(** A course of two pairs, the first with one checkpoint. *)
Definition sample_course : Course.t :=
  Course.mk
    [ApiGate.mk 1 "Ridge" (LatLon.mk 49.36 (-123.11)) (LatLon.mk 49.37 (-123.12))
       (Some [LatLon.mk 49.365 (-123.115)]);
     ApiGate.mk 2 "Creek" (LatLon.mk 49.38 (-123.13)) (LatLon.mk 49.39 (-123.14))
       None]
    15.

Definition sample_segments : list Json :=
  [JObj [("pairId", JNum 1); ("elapsed", JNum 63.5)]].

(** A server that serves [sample_course] and an empty leaderboard, and whose
    segment-time endpoint answers every other request with a server error. *)
Definition sample_server : Server :=
  {| course_at := λ _, fetch_response true "" (Some sample_course);
     leaderboard_at := λ _, fetch_response true "" (Some {| entries := None |});
     segments_at := λ n,
       if Nat.even n then fetch_response false "Internal Server Error" None
       else fetch_response true "" (Some {| segments := Some sample_segments |}) |}.

Definition sample_points : list Point.t :=
  [Point.mk 49.36 (-123.11) (Some 120%float) (Some "2024-05-01T10:00:00Z");
   Point.mk 49.37 (-123.12) None None].

(** The three-pair state after course 7 was selected and loaded. *)
Definition loaded_state : State :=
  exec (loadSelectedCourse sample_server)
    (set_selectedCourseId (Some 7) three_pairs_state).

(** Two tracks over the loaded course, and over the unconfirmed pairs. *)
Definition two_tracks : list Track.t :=
  [Track.mk "1700000000100_0" "Morning" sample_points "#ef4444" None;
   Track.mk "1700000000200_0" "Evening" sample_points "#3b82f6" None].

Definition loaded_state_with_tracks : State := set_tracks two_tracks loaded_state.

Definition editing_state_with_tracks : State := set_tracks two_tracks two_pairs_state.

(** Two files whose uploads are handled within the same millisecond: both
    tracks get the id ["1700000000300_0"]. *)
Definition same_millisecond_state : State :=
  exec (processFile_loaded sample_server (λ _, 1700000000300) [("Evening", sample_points)])
    (exec (processFile_loaded sample_server (λ _, 1700000000300) [("Morning", sample_points)])
       createState).

(** A server whose course endpoint answers with an error. *)
Definition failing_server : Server :=
  {| course_at := λ _, fetch_response false "Course not found" None;
     leaderboard_at := λ _, fetch_threw "Failed to fetch";
     segments_at := λ _, fetch_threw "Failed to fetch" |}.

(** * Properties *)

(** ** The insertion-ordered map *)

Section OMapFacts.
Context {V : Type}.
Implicit Types (m : list (Z * V)) (k : Z) (v : V).

Lemma omap_get_set k k' v m :
  OMap.get k (OMap.set k' v m) = if decide (k = k') then Some v else OMap.get k m.
Proof.
  induction m as [|[k0 v0] m IH]; simpl.
  - repeat case_decide; congruence.
  - destruct (decide (k' = k0)) as [->|Hne]; simpl.
    + repeat case_decide; congruence.
    + rewrite IH. repeat case_decide; congruence.
Qed.

Lemma omap_set_keys k v m :
  (OMap.set k v m).*1 = if decide (k ∈ m.*1) then m.*1 else m.*1 ++ [k].
Proof.
  induction m as [|[k0 v0] m IH]; csimpl.
  - destruct (decide (k ∈ [])) as [H|_]; [by apply elem_of_nil in H | done].
  - destruct (decide (k = k0)) as [->|Hne]; csimpl.
    + rewrite decide_True; [done | left].
    + rewrite IH. destruct (decide (k ∈ m.*1)) as [Hin|Hnin].
      * rewrite decide_True; [done | by right].
      * rewrite decide_False; [done |].
        rewrite elem_of_cons. tauto.
Qed.

Lemma omap_set_NoDup k v m : NoDup m.*1 → NoDup (OMap.set k v m).*1.
Proof.
  intros Hnd. rewrite omap_set_keys. case_decide; [done |].
  apply NoDup_app. split_and!; [done | | apply NoDup_singleton].
  intros x Hx Hx'. apply list_elem_of_singleton in Hx'. by subst.
Qed.

Lemma omap_elem_of_get k v m :
  NoDup m.*1 → (k, v) ∈ m ↔ OMap.get k m = Some v.
Proof.
  induction m as [|[k0 v0] m IH]; csimpl; intros Hnd.
  - split; [intros H; by apply elem_of_nil in H | done].
  - apply NoDup_cons in Hnd as [Hk0 Hnd]. rewrite elem_of_cons.
    case_decide; subst.
    + split; [| intros [= ->]; by left].
      intros [[= ->]|Hin]; [done |].
      exfalso. apply Hk0. apply list_elem_of_fmap. by exists (k0, v).
    + rewrite IH by done. split; [intros [[= ? ?]|?]; done | by right].
Qed.
End OMapFacts.

(** ** The aggregator, key by key *)

(** Case analysis on the truthiness of every name in sight. *)
Ltac js_cases :=
  repeat match goal with v : option string |- _ => destruct v as [?|] end;
  unfold js_or, js_or_str, truthy; simpl;
  repeat match goal with
         | |- context [String.eqb ?x ""] =>
             destruct (String.eqb x "") eqn:?; simpl
         end;
  try congruence.

Lemma js_name_step (c n x : option string) (d : string) :
  js_or_str (js_or c (if truthy n then n else x)) d =
    js_or_str (js_or c n) (js_or_str (js_or c x) d).
Proof. js_cases. Qed.

Lemma js_name_first (c n : option string) (d : string) :
  js_or_str (js_or c n) (js_or_str (js_or c n) d) =
    js_or_str (js_or c n) (js_or_str (js_or c None) d).
Proof. js_cases. Qed.

Lemma truthy_js_or_str a d : truthy a = true → js_or_str a d = default d a.
Proof. destruct a as [s|]; simpl; [|done]. by destruct (String.eqb s ""). Qed.

Lemma falsy_js_or_str a d : truthy a = false → js_or_str a d = d.
Proof. destruct a as [s|]; simpl; [|done]. by destruct (String.eqb s ""). Qed.

Lemma js_or_str_idem a d : js_or_str a (js_or_str a d) = js_or_str a d.
Proof. destruct a as [s|]; simpl; [|done]. by destruct (String.eqb s ""). Qed.

Lemma default_name_truthy k : truthy (Some (default_name k)) = true.
Proof. reflexivity. Qed.

Lemma last_gate_snoc ty k tg g :
  last_gate ty k (tg ++ [g]) =
    if decide (Gate.pairId g = k ∧ Gate.type g = ty) then Some g
    else last_gate ty k tg.
Proof.
  unfold last_gate. rewrite filter_app, filter_cons, filter_nil.
  case_decide; [apply last_snoc | by rewrite app_nil_r].
Qed.

Lemma carried_name_snoc k tg g :
  carried_name k (tg ++ [g]) =
    if decide (Gate.pairId g = k)
    then (if truthy (Gate.name g) then Gate.name g else carried_name k tg)
    else carried_name k tg.
Proof.
  unfold carried_name. rewrite omap_app. simpl.
  case_decide; [| by rewrite app_nil_r].
  unfold js_or. destruct (Gate.name g) as [n|] eqn:Hn; simpl.
  - destruct (String.eqb n ""); simpl; [by rewrite app_nil_r | apply last_snoc].
  - by rewrite app_nil_r.
Qed.

Lemma last_gate_absent ty k tg :
  k ∉ Gate.pairId <$> tg → last_gate ty k tg = None.
Proof.
  intros Hk. unfold last_gate. apply last_None.
  destruct (filter _ tg) as [|g l] eqn:Hf; [done | exfalso].
  assert (g ∈ filter (λ g, Gate.pairId g = k ∧ Gate.type g = ty) tg) as Hg
    by (rewrite Hf; left).
  apply list_elem_of_filter in Hg as [[<- _] Hg].
  by apply Hk, list_elem_of_fmap_2.
Qed.

Lemma carried_name_absent k tg :
  k ∉ Gate.pairId <$> tg → carried_name k tg = None.
Proof.
  intros Hk. unfold carried_name. apply last_None.
  induction tg as [|g tg IH]; [done |]. simpl.
  rewrite fmap_cons, not_elem_of_cons in Hk. destruct Hk as [Hne Hk].
  rewrite decide_False by done. by apply IH.
Qed.

Lemma carried_name_truthy k tg n :
  carried_name k tg = Some n → truthy (Some n) = true.
Proof.
  induction tg as [|g tg IH] using rev_ind; [done |].
  rewrite carried_name_snoc. case_decide; [| done].
  destruct (truthy (Gate.name g)) eqn:Ht; [| done].
  intros <-. done.
Qed.

Lemma last_gate_Some ty k tg g :
  last_gate ty k tg = Some g → g ∈ tg ∧ Gate.pairId g = k ∧ Gate.type g = ty.
Proof.
  unfold last_gate. intros Hl. apply last_Some_elem_of in Hl.
  apply list_elem_of_filter in Hl. tauto.
Qed.

Lemma last_gate_is_Some ty k tg g :
  g ∈ tg → Gate.pairId g = k → Gate.type g = ty → is_Some (last_gate ty k tg).
Proof.
  intros Hg Hk Hty. unfold last_gate. apply last_is_Some.
  intros Hnil.
  assert (g ∈ filter (λ g, Gate.pairId g = k ∧ Gate.type g = ty) tg) as Hin
    by (by apply list_elem_of_filter).
  rewrite Hnil in Hin. by apply elem_of_nil in Hin.
Qed.

Section AggregatorFacts.
Variable cps : gmap Z (list LatLon.t).
Variable names : gmap Z string.

Lemma groups_of_snoc tg g :
  groups_of cps names (tg ++ [g]) = group_step cps names (groups_of cps names tg) g.
Proof. unfold groups_of. by rewrite fold_left_app. Qed.

Lemma groups_of_NoDup tg : NoDup (groups_of cps names tg).*1.
Proof.
  induction tg as [|g tg IH] using rev_ind; [apply NoDup_nil_2 |].
  rewrite groups_of_snoc. by apply omap_set_NoDup.
Qed.

Lemma pair_name_snoc k tg g :
  Gate.pairId g = k →
  pair_name names k (tg ++ [g]) =
    js_or_str (js_or (names !! k) (Gate.name g)) (pair_name names k tg).
Proof.
  intros Hk. unfold pair_name. rewrite carried_name_snoc, decide_True by done.
  apply js_name_step.
Qed.

(** Updating the entry of pair [k] with one more gate of that pair. *)
Lemma update_entry_pair_of k tg g :
  Gate.pairId g = k →
  update_entry cps names (pair_of cps names k tg) g = pair_of cps names k (tg ++ [g]).
Proof.
  intros Hk. unfold update_entry, pair_of.
  rewrite !last_gate_snoc, pair_name_snoc by done. subst k. simpl.
  destruct (Gate.type g) eqn:Hty.
  - rewrite decide_True by done. rewrite decide_False by (intros [_ ?]; done). done.
  - rewrite decide_False by (intros [_ ?]; done). rewrite decide_True by done. done.
Qed.

(** The first gate of a pair: the fresh entry, updated, is the pair read off
    the collection. *)
Lemma update_fresh_entry_pair_of k tg g :
  Gate.pairId g = k → k ∉ Gate.pairId <$> tg →
  update_entry cps names (fresh_entry cps names g) g = pair_of cps names k (tg ++ [g]).
Proof.
  intros Hk Hnew. rewrite <- (update_entry_pair_of k tg g Hk).
  unfold update_entry, fresh_entry, pair_of, pair_name.
  rewrite !last_gate_absent, carried_name_absent by done. subst k. simpl.
  f_equal. apply js_name_first.
Qed.

(** The entry of each key after the loop, in closed form. *)
Lemma groups_of_get tg k :
  OMap.get k (groups_of cps names tg) =
    if decide (k ∈ Gate.pairId <$> tg) then Some (pair_of cps names k tg) else None.
Proof.
  revert k. induction tg as [|g tg IH] using rev_ind; intros k.
  - by destruct (decide (k ∈ Gate.pairId <$> [])) as [H%elem_of_nil|].
  - rewrite groups_of_snoc. unfold group_step. rewrite omap_get_set, !IH.
    assert (Gate.pairId <$> tg ++ [g] = (Gate.pairId <$> tg) ++ [Gate.pairId g])
      as -> by (by rewrite fmap_app).
    destruct (decide (k = Gate.pairId g)) as [->|Hne].
    + rewrite (decide_True (P := _ ∈ _ ++ _))
        by (apply elem_of_app; right; left).
      f_equal. case_decide.
      * by apply update_entry_pair_of.
      * by apply update_fresh_entry_pair_of.
    + assert (pair_of cps names k (tg ++ [g]) = pair_of cps names k tg) as ->.
      { unfold pair_of, pair_name.
        rewrite !last_gate_snoc, carried_name_snoc.
        by rewrite !decide_False by (try intros [? _]; congruence). }
      destruct (decide (k ∈ Gate.pairId <$> tg)).
      * by rewrite decide_True by (apply elem_of_app; by left).
      * rewrite decide_False; [done |].
        rewrite elem_of_app, list_elem_of_singleton. tauto.
Qed.

(** Membership in the output of the aggregator. *)
Lemma elem_of_gatePairs tg p :
  p ∈ gatePairs cps names tg ↔
    Pair.pairId p ∈ Gate.pairId <$> tg ∧
    p = pair_of cps names (Pair.pairId p) tg ∧ complete p = true.
Proof.
  unfold gatePairs, OMap.values. rewrite list_elem_of_filter, list_elem_of_fmap. split.
  - intros [Hc ([k e] & -> & Hin)]. simpl in *.
    apply omap_elem_of_get in Hin; [| apply groups_of_NoDup].
    rewrite groups_of_get in Hin. case_decide; [| done].
    injection Hin as <-. simpl. done.
  - intros (Hin & Hp & Hc). split; [done |].
    exists (Pair.pairId p, p). split; [done |].
    apply omap_elem_of_get; [apply groups_of_NoDup |].
    rewrite groups_of_get, decide_True by done. by rewrite <- Hp.
Qed.

Lemma gatePairs_NoDup tg : NoDup (Pair.pairId <$> gatePairs cps names tg).
Proof.
  unfold gatePairs, OMap.values.
  assert (∀ m : list (Z * Pair.t),
             (∀ k e, (k, e) ∈ m → Pair.pairId e = k) → NoDup m.*1 →
             NoDup (Pair.pairId <$> filter (λ p, complete p = true) m.*2)) as H.
  { induction m as [|[k e] m IH]; csimpl; intros Hid Hnd; [apply NoDup_nil_2 |].
    apply NoDup_cons in Hnd as [Hk Hnd].
    assert (NoDup (Pair.pairId <$> filter (λ p, complete p = true) m.*2)) as IH'.
    { apply IH; [| done]. intros k' e' Hin. apply Hid. by right. }
    rewrite filter_cons. case_decide; [| done]. csimpl.
    apply NoDup_cons. split; [| done].
    intros Hin. apply list_elem_of_fmap in Hin as (p & Hp & Hin).
    apply list_elem_of_filter in Hin as [_ Hin].
    apply list_elem_of_fmap in Hin as ([k' e'] & -> & Hin). simpl in *.
    apply Hk. apply list_elem_of_fmap. exists (k', e'). split; [| done].
    simpl. rewrite (Hid k e) in Hp by left. rewrite <- (Hid k' e') by (by right).
    done. }
  apply H; [| apply groups_of_NoDup].
  intros k e Hin. apply omap_elem_of_get in Hin; [| apply groups_of_NoDup].
  rewrite groups_of_get in Hin. case_decide; [| done]. by injection Hin as <-.
Qed.
End AggregatorFacts.

(** ** The aggregator: which pairs come out (C1) *)

(** C1. For every flat gate collection, checkpoint mapping and custom-name
    mapping, [gatePairs] outputs a pair with a given [pairId] if and only if
    the collection holds a start-type gate and an end-type gate with that
    [pairId]; and the [confirmed] flag of each output pair is true exactly
    when the start gate and the end gate it carries, which are gates of the
    collection of that pair and type, are both confirmed. *)
Theorem gatePairs_both_gates_and_confirmed
    (cps : gmap Z (list LatLon.t)) (names : gmap Z string) (tg : list Gate.t) :
  (∀ pid,
     (∃ p, p ∈ gatePairs cps names tg ∧ Pair.pairId p = pid) ↔
     (∃ s, s ∈ tg ∧ Gate.pairId s = pid ∧ Gate.type s = type_start) ∧
     (∃ e, e ∈ tg ∧ Gate.pairId e = pid ∧ Gate.type e = type_end)) ∧
  (∀ p, p ∈ gatePairs cps names tg →
     ∃ s e,
       Pair.start p = Some s ∧ Pair.end_ p = Some e ∧
       s ∈ tg ∧ Gate.pairId s = Pair.pairId p ∧ Gate.type s = type_start ∧
       e ∈ tg ∧ Gate.pairId e = Pair.pairId p ∧ Gate.type e = type_end ∧
       (Pair.confirmed p = true ↔
          Gate.confirmed s = true ∧ Gate.confirmed e = true)).
Proof.
  split.
  - intros pid. split.
    + intros (p & Hp & <-). apply elem_of_gatePairs in Hp as (_ & Hp & Hc).
      rewrite Hp in Hc. unfold complete in Hc. simpl in Hc.
      apply andb_true_iff in Hc as [[s Hs]%bool_decide_eq_true [e He]%bool_decide_eq_true].
      apply last_gate_Some in Hs as (? & ? & ?), He as (? & ? & ?).
      split; [by exists s | by exists e].
    + intros [(s & Hs & Hsp & Hst) (e & He & Hep & Het)].
      exists (pair_of cps names pid tg). split; [| done].
      apply elem_of_gatePairs. simpl. split_and!; [| done |].
      * rewrite <- Hsp. by apply list_elem_of_fmap_2.
      * unfold complete. simpl. apply andb_true_iff.
        split; apply bool_decide_eq_true;
          [by apply (last_gate_is_Some _ _ _ s) | by apply (last_gate_is_Some _ _ _ e)].
  - intros p Hp. apply elem_of_gatePairs in Hp as (_ & Hp & Hc).
    rewrite Hp in Hc |- *. unfold complete in Hc. simpl in *.
    apply andb_true_iff in Hc as [[s Hs]%bool_decide_eq_true [e He]%bool_decide_eq_true].
    exists s, e. rewrite Hs, He. simpl.
    apply last_gate_Some in Hs as (? & ? & ?), He as (? & ? & ?).
    split_and!; try done. apply andb_true_iff.
Qed.

(** ** The aggregator: how pairs are named (C8) *)

Lemma carried_name_Some k tg n :
  carried_name k tg = Some n →
  ∃ g, g ∈ tg ∧ Gate.pairId g = k ∧ Gate.name g = Some n ∧
       truthy (Gate.name g) = true.
Proof.
  induction tg as [|g tg IH] using rev_ind; [done |].
  rewrite carried_name_snoc. setoid_rewrite elem_of_app.
  destruct (decide (Gate.pairId g = k)) as [Hk|Hk].
  - destruct (truthy (Gate.name g)) eqn:Ht.
    + intros Hn. exists g. split_and!; try done. right. left.
    + intros (g' & ? & ? & ? & ?)%IH. exists g'. split_and!; try done. by left.
  - intros (g' & ? & ? & ? & ?)%IH. exists g'. split_and!; try done. by left.
Qed.

Lemma carried_name_None k tg :
  (∀ g, g ∈ tg → Gate.pairId g = k → truthy (Gate.name g) = false) →
  carried_name k tg = None.
Proof.
  induction tg as [|g tg IH] using rev_ind; [done |].
  intros Hall. rewrite carried_name_snoc.
  assert (carried_name k tg = None) as ->.
  { apply IH. intros g' Hg'. apply Hall, elem_of_app. by left. }
  case_decide as Hk; [| done].
  rewrite (Hall g); [done | | done]. apply elem_of_app. right. left.
Qed.

Lemma carried_name_None_inv k tg :
  carried_name k tg = None →
  ∀ g, g ∈ tg → Gate.pairId g = k → truthy (Gate.name g) = false.
Proof.
  induction tg as [|g0 tg IH] using rev_ind.
  - intros _ g Hg. by apply elem_of_nil in Hg.
  - rewrite carried_name_snoc. intros Hcar g Hg Hk.
    apply elem_of_app in Hg as [Hg|Hg%list_elem_of_singleton].
    + apply IH; [| done | done]. case_decide; [| done].
      destruct (truthy (Gate.name g0)) eqn:Ht0; [| done].
      by rewrite Hcar in Ht0.
    + subst g0. rewrite decide_True in Hcar by done.
      destruct (truthy (Gate.name g)) eqn:Ht; [| done].
      by rewrite Hcar in Ht.
Qed.

(** C8. [gatePairs] names each output pair by the tie-break: the custom name
    when it is set (truthy); else the name carried by a gate of the pair when
    one carries a (truthy) name; else the synthesized default
    ["Gate Pair {pairId}"].  And for the flat gates
    [{pairId:1,type:start,lat:1,lon:1,confirmed:true}],
    [{pairId:1,type:end,lat:2,lon:2,confirmed:true}] (no name; whatever their
    ids and editing flags) with empty checkpoint and custom-name mappings,
    the output is exactly one pair, with [confirmed:true] and the name
    ["Gate Pair 1"]. *)
Theorem gatePairs_name_tie_break :
  (∀ (cps : gmap Z (list LatLon.t)) (names : gmap Z string) (tg : list Gate.t) p,
     p ∈ gatePairs cps names tg →
     (truthy (names !! Pair.pairId p) = true →
        names !! Pair.pairId p = Some (Pair.name p)) ∧
     (truthy (names !! Pair.pairId p) = false →
        (∃ g, g ∈ tg ∧ Gate.pairId g = Pair.pairId p ∧
              truthy (Gate.name g) = true) →
        ∃ g, g ∈ tg ∧ Gate.pairId g = Pair.pairId p ∧
             truthy (Gate.name g) = true ∧ Gate.name g = Some (Pair.name p)) ∧
     (truthy (names !! Pair.pairId p) = false →
        (∀ g, g ∈ tg → Gate.pairId g = Pair.pairId p →
              truthy (Gate.name g) = false) →
        Pair.name p = default_name (Pair.pairId p))) ∧
  (∀ (id1 id2 : string) (ed1 ed2 : bool),
     let s := Gate.mk id1 1 None type_start 1 1 true ed1 in
     let e := Gate.mk id2 1 None type_end 2 2 true ed2 in
     gatePairs ∅ ∅ [s; e] =
       [Pair.mk 1 "Gate Pair 1" (Some s) (Some e) [] true (ed1 || ed2)]).
Proof.
  split.
  - intros cps names tg p Hp.
    apply elem_of_gatePairs in Hp as (_ & Hp & _).
    set (k := Pair.pairId p) in *.
    assert (Pair.name p = pair_name names k tg) as Hname by (by rewrite Hp).
    unfold pair_name in Hname. split_and!.
    + intros Hc. rewrite Hname. unfold js_or. rewrite Hc.
      destruct (names !! k) as [c|]; [| done]. simpl in *.
      by destruct (String.eqb c "").
    + intros Hc (g & Hg & Hgk & Hgt).
      destruct (carried_name k tg) as [n|] eqn:Hcar.
      * pose proof (carried_name_Some _ _ _ Hcar) as (g' & ? & ? & Hn & Ht).
        exists g'. split_and!; try done.
        rewrite Hname, Hn. unfold js_or. rewrite Hc. f_equal.
        rewrite Hn in Ht. by rewrite truthy_js_or_str.
      * by rewrite (carried_name_None_inv _ _ Hcar g) in Hgt.
    + intros Hc Hall. rewrite Hname, (carried_name_None _ _ Hall).
      unfold js_or. rewrite Hc. done.
  - intros id1 id2 ed1 ed2. vm_compute. reflexivity.
Qed.

(** ** Entering edit mode ([startEditing]) *)

Lemma startEditing_timeGates pid s :
  timeGates (exec (startEditing pid) s) = startEditing_gate pid <$> timeGates s.
Proof. reflexivity. Qed.

(** What [startEditing] does to one gate, field by field. *)
Lemma startEditing_gate_fields pid g :
  let g' := startEditing_gate pid g in
  Gate.id g' = Gate.id g ∧ Gate.pairId g' = Gate.pairId g ∧
  Gate.name g' = Gate.name g ∧ Gate.type g' = Gate.type g ∧
  Gate.lat g' = Gate.lat g ∧ Gate.lon g' = Gate.lon g ∧
  Gate.confirmed g' = Gate.confirmed g ∧
  Gate.editing g' = bool_decide (Gate.pairId g = pid).
Proof.
  unfold startEditing_gate. simpl.
  destruct (bool_decide (Gate.pairId g ≠ pid)), (Gate.confirmed g) eqn:Hc;
    simpl; rewrite ?Hc; done.
Qed.

(** A map over the gates that keeps pair ids and types commutes with the
    choice of the gate of each slot. *)
Lemma last_gate_fmap (f : Gate.t → Gate.t) ty k tg :
  (∀ g, Gate.pairId (f g) = Gate.pairId g) →
  (∀ g, Gate.type (f g) = Gate.type g) →
  last_gate ty k (f <$> tg) = f <$> last_gate ty k tg.
Proof.
  intros Hid Hty. induction tg as [|g tg IH] using rev_ind; [done |].
  rewrite fmap_app. simpl. rewrite !last_gate_snoc, Hid, Hty, IH.
  by case_decide.
Qed.

Lemma startEditing_after pid tg :
  at_most_one_editing (startEditing_gate pid <$> tg).
Proof.
  intros g1 g2 (a & -> & _)%list_elem_of_fmap (b & -> & _)%list_elem_of_fmap.
  destruct (startEditing_gate_fields pid a) as (_ & -> & _ & _ & _ & _ & _ & ->).
  destruct (startEditing_gate_fields pid b) as (_ & -> & _ & _ & _ & _ & _ & ->).
  intros ->%bool_decide_eq_true ->%bool_decide_eq_true. done.
Qed.

(** C9. [startEditing(pairId)] never changes a gate's [confirmed] flag: for
    every argument and every state, the gates after the call are the gates
    before it, position by position, with every field but [editing] equal
    ([confirmed] in particular); and a pair that the aggregator reports as
    confirmed before the call is still reported, and confirmed, after it. *)
Theorem startEditing_keeps_confirmed (pid : Z) (s : State) :
  let s' := exec (startEditing pid) s in
  Forall2 (λ g g',
             Gate.confirmed g' = Gate.confirmed g ∧
             Gate.id g' = Gate.id g ∧ Gate.pairId g' = Gate.pairId g ∧
             Gate.name g' = Gate.name g ∧ Gate.type g' = Gate.type g ∧
             Gate.lat g' = Gate.lat g ∧ Gate.lon g' = Gate.lon g)
    (timeGates s) (timeGates s') ∧
  Gate.confirmed <$> timeGates s' = Gate.confirmed <$> timeGates s ∧
  (∀ p, p ∈ gatePairs (pairCheckpoints s) (pairNames s) (timeGates s) →
        Pair.confirmed p = true →
        ∃ p', p' ∈ gatePairs (pairCheckpoints s') (pairNames s') (timeGates s') ∧
              Pair.pairId p' = Pair.pairId p ∧ Pair.confirmed p' = true).
Proof.
  intros s'. subst s'. rewrite startEditing_timeGates.
  change (pairCheckpoints (exec (startEditing pid) s)) with (pairCheckpoints s).
  change (pairNames (exec (startEditing pid) s)) with (pairNames s).
  split_and!.
  - apply Forall2_fmap_r, Forall_Forall2_diag, Forall_forall.
    intros g _. pose proof (startEditing_gate_fields pid g). simpl in *. tauto.
  - rewrite <- list_fmap_compose. apply list_fmap_ext. intros _ g _. simpl.
    apply startEditing_gate_fields.
  - intros p Hp Hconf.
    assert (∀ g, Gate.pairId (startEditing_gate pid g) = Gate.pairId g) as Hid
      by (intros g; apply startEditing_gate_fields).
    assert (∀ g, Gate.type (startEditing_gate pid g) = Gate.type g) as Hty
      by (intros g; apply startEditing_gate_fields).
    assert (∀ o, opt_flag Gate.confirmed (startEditing_gate pid <$> o)
                 = opt_flag Gate.confirmed o) as Hflag.
    { intros [g|]; [| done]. simpl. apply startEditing_gate_fields. }
    apply elem_of_gatePairs in Hp as (Hin & Hp & Hc).
    set (k := Pair.pairId p) in *.
    exists (pair_of (pairCheckpoints s) (pairNames s) k
              (startEditing_gate pid <$> timeGates s)).
    split_and!.
    + apply elem_of_gatePairs. simpl. split_and!; [| done |].
      * rewrite <- list_fmap_compose.
        erewrite list_fmap_ext; [exact Hin |].
        intros _ g _. apply Hid.
      * rewrite Hp in Hc. unfold complete in *. simpl in *.
        rewrite !last_gate_fmap by done.
        apply andb_true_iff in Hc as [[? ->]%bool_decide_eq_true [? ->]%bool_decide_eq_true].
        done.
    + done.
    + rewrite Hp in Hconf. simpl in *.
      by rewrite !last_gate_fmap, !Hflag by done.
Qed.

(** C5. In a state where the gates of pair 1 are unconfirmed and in edit
    mode, [startEditing(2)] leaves every gate in place with its pair and
    type, sets the gates of pair 2 to [editing:true], leaves the gates of
    pair 1 with [editing:false] and [confirmed:false], and at most one pair
    has gates in edit mode afterwards. *)
Theorem startEditing_switches_pair (s : State)
    (Hpair1 : ∀ g, g ∈ timeGates s → Gate.pairId g = 1 →
                   Gate.confirmed g = false ∧ Gate.editing g = true) :
  let s' := exec (startEditing 2) s in
  Forall2 (λ g g',
             Gate.pairId g' = Gate.pairId g ∧ Gate.type g' = Gate.type g ∧
             (Gate.pairId g = 2 → Gate.editing g' = true) ∧
             (Gate.pairId g = 1 →
                Gate.editing g' = false ∧ Gate.confirmed g' = false))
    (timeGates s) (timeGates s') ∧
  at_most_one_editing (timeGates s').
Proof.
  intros s'. subst s'. rewrite startEditing_timeGates. split.
  - apply Forall2_fmap_r, Forall_Forall2_diag, Forall_forall.
    intros g Hg.
    destruct (startEditing_gate_fields 2 g)
      as (_ & Hid & _ & Hty & _ & _ & Hconf & Hed).
    split_and!; [done | done | |].
    + intros Hk. rewrite Hed. by apply bool_decide_eq_true.
    + intros Hk. rewrite Hed, Hconf. split.
      * apply bool_decide_eq_false. lia.
      * by apply Hpair1.
  - apply startEditing_after.
Qed.

Lemma startEditing_switches_pair_witness :
  Gate.pairId <$> timeGates two_pairs_state = [1; 1; 2; 2] ∧
  Gate.editing <$> timeGates (exec (startEditing 2) two_pairs_state)
    = [false; false; true; true] ∧
  at_most_one_editing (timeGates (exec (startEditing 2) two_pairs_state)).
Proof.
  split; [vm_compute; reflexivity |].
  split; [vm_compute; reflexivity |].
  apply (startEditing_switches_pair two_pairs_state).
  intros g Hg Hk. vm_compute in Hg.
  repeat (apply elem_of_cons in Hg as [->|Hg]); try (by apply elem_of_nil in Hg);
    try (vm_compute in Hk; discriminate Hk); split; reflexivity.
Defined.

(** ** What a method leaves alone *)

Section Keeps.
Context (R : State → State → Prop) `{!Reflexive R, !Transitive R}.

Lemma keeps_ret {A} (a : A) : keeps R (ret a).
Proof. intros s. simpl. reflexivity. Qed.

Lemma keeps_get_state : keeps R get_state.
Proof. intros s. simpl. reflexivity. Qed.

Lemma keeps_modify f : (∀ s, R s (f s)) → keeps R (modify f).
Proof. intros Hf s. apply Hf. Qed.

Lemma keeps_bind {A B} (m : Eff A) (k : A → Eff B) :
  keeps R m → (∀ a, keeps R (k a)) → keeps R (bind m k).
Proof.
  intros Hm Hk s. unfold bind. specialize (Hm s).
  destruct (m s) as [[e|a] s1]; simpl in *; [done |].
  etrans; [exact Hm | apply Hk].
Qed.

Lemma keeps_try_catch {A} (m : Eff A) (h : string → Eff A) :
  keeps R m → (∀ e, keeps R (h e)) → keeps R (try_catch m h).
Proof.
  intros Hm Hh s. unfold try_catch. specialize (Hm s).
  destruct (m s) as [[e|a] s1]; simpl in *; [| done].
  etrans; [exact Hm | apply Hh].
Qed.

Lemma keeps_api_call {T} req (answer : nat → Fetched T) :
  (∀ s v, R s (set_requests v s)) → keeps R (api_call req answer).
Proof.
  intros Hreq s. unfold api_call.
  destruct (answer _) as [?|[] ? []]; simpl; apply Hreq.
Qed.
End Keeps.

#[local] Instance same_gates_refl : Reflexive same_gates.
Proof. by intros s. Qed.

#[local] Instance same_gates_trans : Transitive same_gates.
Proof. intros s1 s2 s3 (? & ? & ?) (? & ? & ?). unfold same_gates. split_and!; congruence. Qed.

Lemma same_gates_bind {A B} (m : Eff A) (k : A → Eff B) :
  keeps same_gates m → (∀ a, keeps same_gates (k a)) → keeps same_gates (bind m k).
Proof. apply keeps_bind; typeclasses eauto. Qed.

Lemma same_gates_try_catch {A} (m : Eff A) (h : string → Eff A) :
  keeps same_gates m → (∀ e, keeps same_gates (h e)) →
  keeps same_gates (try_catch m h).
Proof. apply keeps_try_catch; typeclasses eauto. Qed.

Lemma same_gates_api_call {T} req (answer : nat → Fetched T) :
  keeps same_gates (api_call req answer).
Proof. apply keeps_api_call. by intros s v. Qed.

(** Closes the goals [keeps same_gates m] of methods built from state
    updates that do not touch the gate model. *)
Ltac keeps_gates :=
  repeat first
    [ apply keeps_ret; typeclasses eauto
    | apply keeps_get_state; typeclasses eauto
    | apply same_gates_bind; [| intros ?]
    | apply same_gates_try_catch; [| intros ?]
    | apply same_gates_api_call
    | apply keeps_modify; by intros ? ].

Section NetworkFrames.
Variable server : Server.

Lemma redrawGates_same_gates : keeps same_gates redrawGates.
Proof. unfold redrawGates. keeps_gates. Qed.

Lemma redrawTracks_same_gates : keeps same_gates redrawTracks.
Proof. unfold redrawTracks. keeps_gates. Qed.

Lemma fetchLeaderboard_same_gates : keeps same_gates (fetchLeaderboard server).
Proof.
  unfold fetchLeaderboard. apply same_gates_bind; [keeps_gates |].
  intros s. destruct (selectedCourseId s) as [cid|]; [| keeps_gates].
  destruct (truthy_id (Some cid)); keeps_gates.
Qed.

Lemma recalc_loop_same_gates gates buffer_m todo i :
  keeps same_gates (recalc_loop server gates buffer_m todo i).
Proof.
  revert i. induction todo as [|t0 rest IH]; intros i; simpl; [keeps_gates |].
  apply same_gates_bind; [| intros _; apply IH].
  unfold store_segmentTimes. destruct (Track.points t0); keeps_gates.
Qed.

Lemma recalcAllSegmentTimes_same_gates :
  keeps same_gates (recalcAllSegmentTimes server).
Proof.
  unfold recalcAllSegmentTimes.
  apply same_gates_bind; [keeps_gates |].
  intros s. destruct (tracks s); [keeps_gates |].
  destruct (gatePairsToApiPayload s); [keeps_gates |].
  apply recalc_loop_same_gates.
Qed.
End NetworkFrames.

(** ** Removing a pair ([removeGatePair]) *)

Lemma removeGatePair_gates server pid s :
  let s' := exec (removeGatePair server pid) s in
  timeGates s' = filter (λ g, Gate.pairId g ≠ pid) (timeGates s) ∧
  pairCheckpoints s' = delete pid (pairCheckpoints s) ∧
  pairNames s' = delete pid (pairNames s).
Proof.
  set (s3 := redrawGates_state
               (set_pairNames (delete pid (pairNames s))
                  (set_pairCheckpoints (delete pid (pairCheckpoints s))
                     (set_timeGates
                        (filter (λ g, Gate.pairId g ≠ pid) (timeGates s)) s)))).
  change (exec (removeGatePair server pid) s)
    with (exec (recalcAllSegmentTimes server) s3).
  exact (recalcAllSegmentTimes_same_gates server s3).
Qed.

(** C6. For every [pairId], after [removeGatePair(pairId)] no gate with that
    [pairId] is left in the flat gate collection, the checkpoint mapping and
    the name mapping have no entry for it, and the aggregator outputs no
    pair with that id. *)
Theorem removeGatePair_leaves_nothing (server : Server) (pid : Z) (s : State) :
  let s' := exec (removeGatePair server pid) s in
  (∀ g, g ∈ timeGates s' → Gate.pairId g ≠ pid) ∧
  pairCheckpoints s' !! pid = None ∧
  pairNames s' !! pid = None ∧
  (∀ p, p ∈ gatePairs (pairCheckpoints s') (pairNames s') (timeGates s') →
        Pair.pairId p ≠ pid).
Proof.
  intros s'. destruct (removeGatePair_gates server pid s) as (Htg & Hcp & Hnm).
  fold s' in Htg, Hcp, Hnm. rewrite Htg, Hcp, Hnm.
  assert (∀ g, g ∈ filter (λ g, Gate.pairId g ≠ pid) (timeGates s) →
               Gate.pairId g ≠ pid) as Hgone.
  { intros g Hg. by apply list_elem_of_filter in Hg as [? _]. }
  split_and!.
  - exact Hgone.
  - apply lookup_delete_eq.
  - apply lookup_delete_eq.
  - intros p Hp. apply elem_of_gatePairs in Hp as (Hin & _ & _).
    apply list_elem_of_fmap in Hin as (g & -> & Hg). by apply Hgone.
Qed.

(** ** Fresh pair ids ([nextPairId]) *)

(** The loop of [nextPairId] has fuel enough: it returns the first integer
    from [i] on that is not in [used]. *)
Lemma next_free_spec (used : gset Z) (fuel : nat) (i : Z) :
  (size (filter (λ x : Z, (i ≤ x)%Z) used) ≤ fuel)%nat →
  (next_free fuel used i ∉ used) ∧
  i ≤ next_free fuel used i ∧
  ∀ j, i ≤ j < next_free fuel used i → j ∈ used.
Proof.
  revert i. induction fuel as [|fuel IH]; intros i Hsize; simpl.
  - split_and!; [| lia | lia].
    intros Hi.
    assert (filter (λ x, i ≤ x) used = ∅) as Hempty.
    { apply leibniz_equiv, size_empty_iff. lia. }
    assert (i ∈ filter (λ x, i ≤ x) used) as Hin
      by (apply elem_of_filter; split; [lia | done]).
    rewrite Hempty in Hin. by apply not_elem_of_empty in Hin.
  - destruct (decide (i ∈ used)) as [Hi|Hi]; [| split_and!; [done | lia | lia]].
    assert (filter (λ x, i + 1 ≤ x) used ⊂ filter (λ x, i ≤ x) used) as Hsub.
    { split.
      - intros x [Hx Hin]%elem_of_filter. apply elem_of_filter. split; [lia | done].
      - intros Hsup.
        assert (i ∈ filter (λ x, i + 1 ≤ x) used) as [? _]%elem_of_filter; [| lia].
        apply Hsup, elem_of_filter. split; [lia | done]. }
    apply subset_size in Hsub.
    destruct (IH (i + 1)) as (Hr & Hle & Hbelow); [lia |].
    split_and!; [done | lia |].
    intros j Hj. destruct (decide (j = i)) as [->|]; [done |]. apply Hbelow. lia.
Qed.

(** [nextPairId] returns the smallest positive integer that no gate uses. *)
Lemma nextPairId_spec s :
  let r := nextPairId s in
  1 ≤ r ∧ (r ∉ Gate.pairId <$> timeGates s) ∧
  ∀ j, 1 ≤ j < r → j ∈ Gate.pairId <$> timeGates s.
Proof.
  unfold nextPairId.
  set (used := list_to_set (Gate.pairId <$> timeGates s) : gset Z).
  destruct (next_free_spec used (size used) 1) as (Hr & Hle & Hbelow).
  { apply subseteq_size. intros x [_ Hx]%elem_of_filter. done. }
  split_and!; [done | |].
  - intros Hin. apply Hr. by apply elem_of_list_to_set.
  - intros j Hj. apply Hbelow in Hj. by apply elem_of_list_to_set in Hj.
Qed.

(** ** One pair in edit mode at a time (C4) *)

Lemma addGatePair_timeGates c now s :
  timeGates (exec (addGatePair c now) s) =
    timeGates s ++
      [Gate.mk (pretty now +:+ "_S") (nextPairId s) (Some (default_name (nextPairId s)))
         type_start (LatLon.lat c + 0.001) (LatLon.lon c + 0.001) false true;
       Gate.mk (pretty now +:+ "_E") (nextPairId s) (Some (default_name (nextPairId s)))
         type_end (LatLon.lat c - 0.001) (LatLon.lon c - 0.001) false true].
Proof. reflexivity. Qed.

(** [addGatePair] puts the new pair in edit mode and leaves the pairs that
    were in edit mode as they were: with a pair already being edited, two
    pairs are in edit mode afterwards. *)
Lemma addGatePair_while_editing c now s g :
  g ∈ timeGates s → Gate.editing g = true →
  ¬ at_most_one_editing (timeGates (exec (addGatePair c now) s)).
Proof.
  intros Hg Hed Hone. rewrite addGatePair_timeGates in Hone.
  destruct (nextPairId_spec s) as (_ & Hfresh & _). apply Hfresh.
  set (new := Gate.mk (pretty now +:+ "_S") _ _ _ _ _ _ _) in Hone.
  assert (Gate.pairId g = nextPairId s) as <-; [| by apply list_elem_of_fmap_2].
  apply (Hone g new); [| | done | done].
  - apply elem_of_app. by left.
  - apply elem_of_app. right. left.
Qed.

(** C4, at the input where it fails. In a new course, after one click on
    [addGatePair] pair 1 is the only pair in edit mode; after a second click
    pairs 1 and 2 are both in edit mode: [addGatePair] does not preserve
    "at most one pair in edit mode". *)
Theorem addGatePair_second_pair_also_editing :
  editing_ids (timeGates one_pair_state) = [1; 1] ∧
  at_most_one_editing (timeGates one_pair_state) ∧
  editing_ids (timeGates two_pairs_state) = [1; 1; 2; 2] ∧
  ¬ at_most_one_editing (timeGates two_pairs_state).
Proof.
  split_and!.
  - vm_compute. reflexivity.
  - intros g1 g2 Hg1 Hg2 _ _. vm_compute in Hg1, Hg2.
    repeat (apply elem_of_cons in Hg1 as [->|Hg1]); try (by apply elem_of_nil in Hg1);
      repeat (apply elem_of_cons in Hg2 as [->|Hg2]); try (by apply elem_of_nil in Hg2);
      reflexivity.
  - vm_compute. reflexivity.
  - unfold two_pairs_state.
    apply (addGatePair_while_editing _ _ _
             (Gate.mk "1700000000000_S" 1 (Some "Gate Pair 1") type_start
                (49.35 + 0.001) (-123.10 + 0.001) false true)); [| done].
    vm_compute. left.
Qed.

(** The other operations of the editing state machine keep the invariant. *)
Lemma startEditing_single_editing pid s :
  at_most_one_editing (timeGates (exec (startEditing pid) s)).
Proof. rewrite startEditing_timeGates. apply startEditing_after. Qed.

Lemma startNewCourse_single_editing s :
  at_most_one_editing (timeGates (exec startNewCourse s)).
Proof. intros g1 g2 Hg1. by apply elem_of_nil in Hg1. Qed.

Lemma removeGatePair_single_editing server pid s :
  at_most_one_editing (timeGates s) →
  at_most_one_editing (timeGates (exec (removeGatePair server pid) s)).
Proof.
  intros Hone. destruct (removeGatePair_gates server pid s) as (-> & _ & _).
  intros g1 g2 [_ Hg1]%list_elem_of_filter [_ Hg2]%list_elem_of_filter.
  by apply Hone.
Qed.

Lemma saveAndConfirmGate_timeGates server pid s :
  ∃ newName,
    timeGates (exec (saveAndConfirmGate server pid) s) =
      (λ g, if decide (Gate.pairId g ≠ pid) then g
            else Gate.mk (Gate.id g) (Gate.pairId g) (Some newName)
                   (Gate.type g) (Gate.lat g) (Gate.lon g) true false)
        <$> timeGates s.
Proof.
  set (newName :=
         js_or_str
           (Pair.name <$>
              head (filter (λ p, Pair.pairId p = pid)
                      (gatePairs (pairCheckpoints s) (pairNames s) (timeGates s))))
           (default_name pid)).
  exists newName.
  set (f := λ g : Gate.t,
         if decide (Gate.pairId g ≠ pid) then g
         else Gate.mk (Gate.id g) (Gate.pairId g) (Some newName)
                (Gate.type g) (Gate.lat g) (Gate.lon g) true false).
  set (s2 := redrawGates_state
               (set_timeGates (f <$> timeGates s)
                  (set_pairNames (<[pid := newName]> (pairNames s)) s))).
  change (exec (saveAndConfirmGate server pid) s)
    with (exec (fetchLeaderboard server)
            (exec (recalcAllSegmentTimes server) s2)).
  destruct (fetchLeaderboard_same_gates server
              (exec (recalcAllSegmentTimes server) s2)) as (H1 & _ & _).
  destruct (recalcAllSegmentTimes_same_gates server s2) as (H2 & _ & _).
  unfold exec in *. by rewrite H1, H2.
Qed.

Lemma saveAndConfirmGate_single_editing server pid s :
  at_most_one_editing (timeGates s) →
  at_most_one_editing (timeGates (exec (saveAndConfirmGate server pid) s)).
Proof.
  intros Hone. destruct (saveAndConfirmGate_timeGates server pid s) as [n ->].
  intros g1 g2 (a & -> & Ha)%list_elem_of_fmap (b & -> & Hb)%list_elem_of_fmap.
  repeat case_decide; simpl; try done. by apply Hone.
Qed.

(** ** Loading a course ([loadSelectedCourse]) *)

Lemma try_catch_bind_ok {A B} (m : Eff A) (k : A → Eff B) h s a s1 :
  m s = (inr a, s1) → try_catch (bind m k) h s = try_catch (k a) h s1.
Proof. intros Hm. unfold try_catch, bind. by rewrite Hm. Qed.

Lemma try_catch_bind_fail {A B} (m : Eff A) (k : A → Eff B) h s e s1 :
  m s = (inl e, s1) → try_catch (bind m k) h s = h e s1.
Proof. intros Hm. unfold try_catch, bind. by rewrite Hm. Qed.

(** The gate model after the loop over the gates of the payload. *)
Lemma load_gates_model gates s :
  let s' := fold_left load_gate gates s in
  timeGates s' = timeGates s ++ gates ≫= (λ g, [loaded_start g; loaded_end g]) ∧
  pairCheckpoints s' = fold_left (λ m g, with_checkpoints g m) gates (pairCheckpoints s) ∧
  pairNames s' =
    fold_left (λ m g, <[ApiGate.pairId g := ApiGate.name g]> m) gates (pairNames s).
Proof.
  revert s. induction gates as [|g gates IH]; intros s; simpl.
  - by rewrite app_nil_r.
  - destruct (IH (load_gate s g)) as (-> & -> & ->).
    unfold load_gate, with_checkpoints.
    destruct (ApiGate.checkpoints g); simpl; by rewrite <- !app_assoc.
Qed.

Section Loading.
Variable server : Server.

Lemma alert_same_gates msg : keeps same_gates (alert msg).
Proof. unfold alert. keeps_gates. Qed.

(** A successful load: the gate model is the one of the payload, loaded over
    emptied collections. *)
Lemma loadSelectedCourse_model s cid detail c :
  selectedCourseId s = Some cid → cid ≠ 0 →
  course_at server (length (requests s)) = fetch_response true detail (Some c) →
  let s' := exec (loadSelectedCourse server) s in
  timeGates s' = Course.gates c ≫= (λ g, [loaded_start g; loaded_end g]) ∧
  pairCheckpoints s' = fold_left (λ m g, with_checkpoints g m) (Course.gates c) ∅ ∧
  pairNames s' =
    fold_left (λ m g, <[ApiGate.pairId g := ApiGate.name g]> m) (Course.gates c) ∅.
Proof.
  intros Hid Hcid Hresp s'.
  pose (s1 := set_requests (requests s ++ [GetCourse cid]) s).
  pose (s4 := fold_left load_gate (Course.gates c)
                (set_pairNames ∅ (set_pairCheckpoints ∅ (set_timeGates []
                   (set_isCreatingCourse false (set_selectedCourse (Some c) s1)))))).
  pose (s5 := redrawGates_state (set_bufferMeters (Course.buffer_m c) s4)).
  pose (rest := try_catch (bind (fetchLeaderboard server)
                             (λ _, recalcAllSegmentTimes server))
                  (λ e, alert ("Load failed: " +:+ e))).
  assert (s' = exec rest s5) as ->.
  { subst s'. unfold loadSelectedCourse, exec, bind at 1, get_state. rewrite Hid.
    assert (truthy_id (Some cid) = true) as ->.
    { simpl. apply negb_true_iff. by apply Z.eqb_neq. }
    rewrite (try_catch_bind_ok _ _ _ s c s1);
      [reflexivity | unfold api_call; by rewrite Hresp]. }
  assert (keeps same_gates rest) as Hkeeps.
  { apply same_gates_try_catch; [| intros e; apply alert_same_gates].
    apply same_gates_bind; [apply fetchLeaderboard_same_gates |].
    intros _. apply recalcAllSegmentTimes_same_gates. }
  destruct (Hkeeps s5) as (H1 & H2 & H3). unfold exec. rewrite H1, H2, H3.
  exact (load_gates_model (Course.gates c) _).
Qed.
End Loading.

Lemma gatePairs_all_confirmed cps names tg :
  Forall (λ g, Gate.confirmed g = true ∧ Gate.editing g = false) tg →
  Forall (λ p, Pair.confirmed p = true ∧ Pair.editing p = false)
    (gatePairs cps names tg).
Proof.
  intros Hall. apply Forall_forall. intros p Hp.
  apply elem_of_gatePairs in Hp as (_ & -> & Hc).
  unfold complete in Hc. simpl in *.
  apply andb_true_iff in Hc as [[s Hs]%bool_decide_eq_true [e He]%bool_decide_eq_true].
  rewrite Hs, He. simpl.
  apply last_gate_Some in Hs as (Hs & _), He as (He & _).
  rewrite Forall_forall in Hall.
  destruct (Hall s Hs) as [-> ->], (Hall e He) as [-> ->]. done.
Qed.

(** The pairs of a start gate and an end gate for each of two distinct ids. *)
Lemma gatePairs_two_pairs cps names s1 e1 s2 e2 :
  Gate.type s1 = type_start → Gate.type e1 = type_end →
  Gate.type s2 = type_start → Gate.type e2 = type_end →
  Gate.pairId e1 = Gate.pairId s1 → Gate.pairId e2 = Gate.pairId s2 →
  Gate.pairId s1 ≠ Gate.pairId s2 →
  Pair.pairId <$> gatePairs cps names [s1; e1; s2; e2]
    = [Gate.pairId s1; Gate.pairId s2].
Proof.
  intros Hs1 He1 Hs2 He2 Hp1 Hp2 Hne.
  unfold gatePairs, groups_of, group_step. simpl.
  rewrite Hp1, Hp2.
  repeat (rewrite ?decide_True by done; rewrite ?decide_False by done; simpl).
  unfold update_entry. rewrite Hs1, He1, Hs2, He2. reflexivity.
Qed.

Section LoadingClaims.
Variable server : Server.

(** C7. A successful [loadSelectedCourse] of a course with two gate pairs
    replaces the flat gates, the checkpoint mapping and the name mapping by
    those of the payload, whatever the state held before (three pairs or
    any other content): the gates are the start and end gates of the two
    payload pairs, all with [confirmed:true] and [editing:false]; exactly two
    pairs exist, both confirmed and not in edit mode; and the two mappings
    hold the entries of the payload and nothing else. *)
Theorem loadSelectedCourse_replaces_model (s : State) (cid : Z) (detail : string)
    (c : Course.t) (g1 g2 : ApiGate.t)
    (Hselected : selectedCourseId s = Some cid) (Hcid : cid ≠ 0)
    (Hfetched : course_at server (length (requests s))
                = fetch_response true detail (Some c))
    (Hgates : Course.gates c = [g1; g2])
    (Hdistinct : ApiGate.pairId g1 ≠ ApiGate.pairId g2) :
  let s' := exec (loadSelectedCourse server) s in
  timeGates s' = [loaded_start g1; loaded_end g1; loaded_start g2; loaded_end g2] ∧
  Forall (λ g, Gate.confirmed g = true ∧ Gate.editing g = false) (timeGates s') ∧
  Pair.pairId <$> gatePairs (pairCheckpoints s') (pairNames s') (timeGates s')
    = [ApiGate.pairId g1; ApiGate.pairId g2] ∧
  Forall (λ p, Pair.confirmed p = true ∧ Pair.editing p = false)
    (gatePairs (pairCheckpoints s') (pairNames s') (timeGates s')) ∧
  pairCheckpoints s' = with_checkpoints g2 (with_checkpoints g1 ∅) ∧
  pairNames s' =
    <[ApiGate.pairId g2 := ApiGate.name g2]> (<[ApiGate.pairId g1 := ApiGate.name g1]> ∅).
Proof.
  intros s'.
  destruct (loadSelectedCourse_model server s cid detail c Hselected Hcid Hfetched)
    as (Htg & Hcp & Hnm).
  fold s' in Htg, Hcp, Hnm. rewrite Hgates in Htg, Hcp, Hnm. simpl in Htg, Hcp, Hnm.
  assert (Forall (λ g, Gate.confirmed g = true ∧ Gate.editing g = false)
            (timeGates s')) as Hall.
  { rewrite Htg. repeat constructor. }
  split_and!; try done.
  - rewrite Htg. by apply gatePairs_two_pairs.
  - by apply gatePairs_all_confirmed.
Qed.
End LoadingClaims.

(** ** Segment times ([recalcAllSegmentTimes]) *)

(** The payload is empty exactly when no pair is confirmed. *)
Lemma gatePairsToApiPayload_nil s :
  gatePairsToApiPayload s = [] ↔
  ∀ p, p ∈ gatePairs (pairCheckpoints s) (pairNames s) (timeGates s) →
       Pair.confirmed p = false.
Proof.
  unfold gatePairsToApiPayload. split.
  - intros Hnil p Hp. destruct (Pair.confirmed p) eqn:Hconf; [exfalso | done].
    pose proof Hp as (_ & _ & Hc)%elem_of_gatePairs.
    assert (is_Some (api_gate p)) as [a Ha].
    { unfold api_gate. unfold complete in Hc.
      apply andb_true_iff in Hc as [[? ->]%bool_decide_eq_true [? ->]%bool_decide_eq_true].
      done. }
    assert (a ∈ omap api_gate
              (filter (λ p, complete p && Pair.confirmed p = true)
                 (gatePairs (pairCheckpoints s) (pairNames s) (timeGates s)))) as Hin.
    { apply list_elem_of_omap. exists p. split; [| done].
      apply list_elem_of_filter. split; [| done]. by rewrite Hc, Hconf. }
    rewrite Hnil in Hin. by apply elem_of_nil in Hin.
  - intros Hnone.
    assert (filter (λ p, complete p && Pair.confirmed p = true)
              (gatePairs (pairCheckpoints s) (pairNames s) (timeGates s)) = []) as ->;
      [| done].
    apply elem_of_nil_inv. intros p [Hc Hp]%list_elem_of_filter.
    apply andb_true_iff in Hc as [_ Hc]. by rewrite (Hnone p Hp) in Hc.
Qed.

Lemma exec_bind_ok {A B} (m : Eff A) (k : A → Eff B) s a s1 :
  m s = (inr a, s1) → exec (bind m k) s = exec (k a) s1.
Proof. intros Hm. unfold exec, bind. by rewrite Hm. Qed.

Section SegmentTimes.
Variable server : Server.

Lemma api_call_segments req s :
  api_call req (segments_at server) s =
    (match segments_at server (length (requests s)) with
     | fetch_threw msg => inl msg
     | fetch_response false detail _ => inl detail
     | fetch_response true detail None => inl detail
     | fetch_response true _ (Some data) => inr data
     end, set_requests (requests s ++ [req]) s).
Proof. unfold api_call. by destruct (segments_at _ _) as [?|[] ? []]. Qed.

(** One round of the loop, on the track of position [length pre]. *)
Lemma recalc_round gates buffer_m pre t0 rest s :
  tracks s = pre ++ t0 :: rest →
  let round :=
    match Track.points t0 with
    | [] => store_segmentTimes (length pre) []
    | _ :: _ =>
        try_catch
          (bind (api_call (segment_request gates buffer_m t0) (segments_at server))
             (λ data, store_segmentTimes (length pre) (default [] (segments data))))
          (λ _, store_segmentTimes (length pre) [])
    end in
  ∃ s1, round s = (inr tt, s1) ∧
    tracks s1 =
      pre ++ Track.set_segmentTimes
               (if has_points t0
                then segment_result (segments_at server (length (requests s)))
                else []) t0 :: rest ∧
    requests s1 =
      requests s ++ (if has_points t0 then [segment_request gates buffer_m t0] else []) ∧
    same_gates s s1 ∧ bufferMeters s1 = bufferMeters s.
Proof.
  intros Htracks round. subst round. unfold has_points.
  assert (∀ v, alter (Track.set_segmentTimes v) (length pre) (tracks s)
               = pre ++ Track.set_segmentTimes v t0 :: rest) as Halter.
  { intros v. rewrite Htracks, alter_app_r_alt by lia.
    by rewrite Nat.sub_diag. }
  destruct (Track.points t0) as [|p ps] eqn:Hpts.
  - eexists. split; [reflexivity |]. simpl. rewrite Halter, app_nil_r. done.
  - unfold try_catch, bind. rewrite api_call_segments.
    destruct (segments_at server (length (requests s))) as [msg|[] detail [data|]];
      (eexists; split; [reflexivity |]; simpl; rewrite Halter; done).
Qed.

(** The loop in closed form. *)
Lemma recalc_loop_closed_form gates buffer_m todo pre s :
  tracks s = pre ++ todo →
  let s' := exec (recalc_loop server gates buffer_m todo (length pre)) s in
  tracks s' = pre ++ recalc_results (segments_at server) (length (requests s)) todo ∧
  requests s' =
    requests s ++ (segment_request gates buffer_m <$> filter (λ t0, has_points t0 = true) todo).
Proof.
  revert pre s. induction todo as [|t0 rest IH]; intros pre s Htracks; simpl.
  - split; [exact Htracks | by rewrite app_nil_r].
  - destruct (recalc_round gates buffer_m pre t0 rest s Htracks)
      as (s1 & Hround & Htr1 & Hreq1 & _ & _).
    rewrite !(exec_bind_ok _ _ s tt s1 Hround), filter_cons.
    destruct (has_points t0) eqn:Hhp.
    + specialize (IH (pre ++ [Track.set_segmentTimes
                               (segment_result (segments_at server (length (requests s))))
                               t0]) s1).
      rewrite length_app, Nat.add_1_r in IH.
      destruct IH as [-> ->]; [by rewrite Htr1, <- app_assoc |].
      rewrite decide_True by done. rewrite Hreq1, length_app, Nat.add_1_r.
      by rewrite <- !app_assoc.
    + specialize (IH (pre ++ [Track.set_segmentTimes [] t0]) s1).
      rewrite length_app, Nat.add_1_r in IH.
      destruct IH as [-> ->]; [by rewrite Htr1, <- app_assoc |].
      rewrite decide_False by done. by rewrite Hreq1, !app_nil_r, <- app_assoc.
Qed.
End SegmentTimes.

Section SegmentTimesClaims.
Variable server : Server.

(** With a confirmed pair, each track is given the result of its own
    request, and the requests made depend on no answer. *)
Lemma recalcAllSegmentTimes_closed_form s :
  gatePairsToApiPayload s ≠ [] →
  let s' := exec (recalcAllSegmentTimes server) s in
  tracks s' = recalc_results (segments_at server) (length (requests s)) (tracks s) ∧
  requests s' =
    requests s ++
      (segment_request (gatePairsToApiPayload s) (js_or_num (bufferMeters s) 10)
         <$> filter (λ t0, has_points t0 = true) (tracks s)).
Proof.
  intros Hpayload s'. subst s'.
  unfold recalcAllSegmentTimes, exec, bind, get_state.
  destruct (tracks s) as [|t0 ts] eqn:Htracks; simpl.
  - by rewrite Htracks, app_nil_r.
  - destruct (gatePairsToApiPayload s) as [|a gates] eqn:Hgates; [done |].
    rewrite <- Htracks.
    destruct (recalc_loop_closed_form server (a :: gates)
                (js_or_num (bufferMeters s) 10) (tracks s) [] s eq_refl) as [H1 H2].
    rewrite Htracks in H1, H2 |- *. exact (conj H1 H2).
Qed.

(** C2. With at least one confirmed pair and two loaded tracks that both
    have points, one request is made for each track whatever the answers;
    when the request of one track fails (thrown error, non-success response
    or unreadable body) and the request of the other succeeds, the failing
    track ends with empty [segmentTimes] and the other one with the segments
    returned for it, in both orders. *)
Theorem recalcAllSegmentTimes_isolates_failure (s : State) (t1 t2 : Track.t)
    (detail : string) (data : SegmentData)
    (Hconfirmed : ∃ p, p ∈ gatePairs (pairCheckpoints s) (pairNames s) (timeGates s)
                       ∧ Pair.confirmed p = true)
    (Htracks : tracks s = [t1; t2])
    (Hpoints1 : Track.points t1 ≠ []) (Hpoints2 : Track.points t2 ≠ []) :
  let n := length (requests s) in
  let s' := exec (recalcAllSegmentTimes server) s in
  let gates := gatePairsToApiPayload s in
  let buffer_m := js_or_num (bufferMeters s) 10 in
  requests s' =
    requests s ++ [segment_request gates buffer_m t1; segment_request gates buffer_m t2] ∧
  (failed (segments_at server n) →
   segments_at server (S n) = fetch_response true detail (Some data) →
   tracks s' = [Track.set_segmentTimes [] t1;
                Track.set_segmentTimes (default [] (segments data)) t2]) ∧
  (segments_at server n = fetch_response true detail (Some data) →
   failed (segments_at server (S n)) →
   tracks s' = [Track.set_segmentTimes (default [] (segments data)) t1;
                Track.set_segmentTimes [] t2]).
Proof.
  intros n s' gates buffer_m.
  assert (gatePairsToApiPayload s ≠ []) as Hpayload.
  { intros Hnil. destruct Hconfirmed as (p & Hp & Hc).
    rewrite (proj1 (gatePairsToApiPayload_nil s) Hnil p Hp) in Hc. done. }
  destruct (recalcAllSegmentTimes_closed_form s Hpayload) as [Htr Hreq].
  fold s' in Htr, Hreq. rewrite Htracks in Htr, Hreq.
  assert (has_points t1 = true) as Hhp1
    by (unfold has_points; by destruct (Track.points t1)).
  assert (has_points t2 = true) as Hhp2
    by (unfold has_points; by destruct (Track.points t2)).
  assert (∀ r : Fetched SegmentData, failed r → segment_result r = []) as Hfailed.
  { intros [msg|ok d body]; [done |]. simpl. intros [-> | ->]; [done |]. by destruct ok. }
  simpl in Htr. rewrite Hhp1, Hhp2 in Htr.
  rewrite !filter_cons, filter_nil, !decide_True in Hreq by done.
  split_and!.
  - exact Hreq.
  - intros Hfail Hok. rewrite Htr. fold n. by rewrite (Hfailed _ Hfail), Hok.
  - intros Hok Hfail. rewrite Htr. fold n. by rewrite (Hfailed _ Hfail), Hok.
Qed.

(** C3. With no confirmed pair (the payload of [gatePairsToApiPayload] is
    then empty), [recalcAllSegmentTimes] leaves every loaded track with an
    empty [segmentTimes] and makes no request. *)
Theorem recalcAllSegmentTimes_without_confirmed_pair (s : State)
    (Hnone : ∀ p, p ∈ gatePairs (pairCheckpoints s) (pairNames s) (timeGates s) →
                  Pair.confirmed p = false) :
  let s' := exec (recalcAllSegmentTimes server) s in
  gatePairsToApiPayload s = [] ∧
  tracks s' = Track.set_segmentTimes [] <$> tracks s ∧
  Forall (λ t0, Track.segmentTimes t0 = Some []) (tracks s') ∧
  requests s' = requests s.
Proof.
  intros s'. apply gatePairsToApiPayload_nil in Hnone.
  assert (tracks s' = Track.set_segmentTimes [] <$> tracks s ∧
          requests s' = requests s) as [Htr Hreq].
  { subst s'. unfold recalcAllSegmentTimes, exec, bind, get_state.
    destruct (tracks s) as [|t0 ts] eqn:Htracks; simpl.
    - by rewrite Htracks.
    - rewrite Hnone. simpl. by rewrite Htracks. }
  split_and!; try done.
  rewrite Htr. apply Forall_fmap, Forall_forall. by intros t0 _.
Qed.
End SegmentTimesClaims.

(** ** The claims at the sample states *)

Lemma loadSelectedCourse_replaces_model_witness :
  length (gatePairs (pairCheckpoints three_pairs_state) (pairNames three_pairs_state)
            (timeGates three_pairs_state)) = 3%nat ∧
  Pair.pairId <$> gatePairs (pairCheckpoints loaded_state) (pairNames loaded_state)
                    (timeGates loaded_state) = [1; 2] ∧
  Forall (λ g, Gate.confirmed g = true ∧ Gate.editing g = false) (timeGates loaded_state).
Proof.
  split; [vm_compute; reflexivity |].
  pose proof (loadSelectedCourse_replaces_model sample_server
                (set_selectedCourseId (Some 7) three_pairs_state) 7 "" sample_course
                (ApiGate.mk 1 "Ridge" (LatLon.mk 49.36 (-123.11))
                   (LatLon.mk 49.37 (-123.12)) (Some [LatLon.mk 49.365 (-123.115)]))
                (ApiGate.mk 2 "Creek" (LatLon.mk 49.38 (-123.13))
                   (LatLon.mk 49.39 (-123.14)) None)
                eq_refl ltac:(lia) eq_refl eq_refl ltac:(simpl; lia))
    as (_ & Hall & Hids & _).
  split; [exact Hids | exact Hall].
Defined.

Lemma recalcAllSegmentTimes_isolates_failure_witness :
  Track.segmentTimes <$>
    tracks (exec (recalcAllSegmentTimes sample_server) loaded_state_with_tracks)
  = [Some []; Some sample_segments].
Proof.
  pose proof (recalcAllSegmentTimes_isolates_failure sample_server
                loaded_state_with_tracks
                (Track.mk "1700000000100_0" "Morning" sample_points "#ef4444" None)
                (Track.mk "1700000000200_0" "Evening" sample_points "#3b82f6" None)
                "" {| segments := Some sample_segments |}) as H.
  destruct H as (_ & Hfirst_fails & _).
  - eexists. split; [vm_compute; left | reflexivity].
  - reflexivity.
  - simpl. discriminate.
  - simpl. discriminate.
  - rewrite Hfirst_fails; [reflexivity | by left | reflexivity].
Defined.

Lemma recalcAllSegmentTimes_without_confirmed_pair_witness :
  Track.segmentTimes <$>
    tracks (exec (recalcAllSegmentTimes sample_server) editing_state_with_tracks)
  = [Some []; Some []] ∧
  requests (exec (recalcAllSegmentTimes sample_server) editing_state_with_tracks) = [].
Proof.
  pose proof (recalcAllSegmentTimes_without_confirmed_pair sample_server
                editing_state_with_tracks) as H.
  destruct H as (_ & Htr & _ & Hreq).
  - intros p Hp. vm_compute in Hp.
    repeat (apply elem_of_cons in Hp as [->|Hp]); try (by apply elem_of_nil in Hp);
      reflexivity.
  - split; [by rewrite Htr | exact Hreq].
Defined.

(** ** Selecting tracks ([toggleTrack]) *)

Lemma indexOf_bounds x l : -1 ≤ indexOf x l.
Proof. induction l as [|y l IH]; simpl; repeat case_decide; lia. Qed.

Lemma indexOf_elem_of x l : 0 ≤ indexOf x l ↔ x ∈ l.
Proof.
  induction l as [|y l IH]; simpl.
  - split; [lia | intros H; by apply elem_of_nil in H].
  - rewrite elem_of_cons. destruct (decide (y = x)) as [->|Hne].
    + split; [by left | lia].
    + destruct (decide (0 ≤ indexOf x l)) as [Hi|Hi].
      * split; [intros _; right; by apply IH | lia].
      * split; [lia |]. intros [->|Hin]; [done |]. by apply IH in Hin.
Qed.

Lemma occurrences_elem_of x l : x ∈ l ↔ occurrences x l ≠ 0%nat.
Proof.
  unfold occurrences. split.
  - intros Hin Hlen. apply length_zero_iff_nil in Hlen.
    assert (x ∈ filter (λ y, y = x) l) as Hx by (by apply list_elem_of_filter).
    rewrite Hlen in Hx. by apply elem_of_nil in Hx.
  - intros Hlen. destruct (filter (λ y, y = x) l) as [|y l'] eqn:Hf; [done |].
    assert (y ∈ filter (λ y, y = x) l) as [-> Hy]%list_elem_of_filter
      by (rewrite Hf; left).
    done.
Qed.

Lemma occurrences_not_elem_of x l : x ∉ l → occurrences x l = 0%nat.
Proof.
  intros Hnin. destruct (decide (occurrences x l = 0%nat)) as [|Hne]; [done |].
  by apply occurrences_elem_of in Hne.
Qed.

(** [splice(indexOf(x), 1)] takes out one occurrence of [x] and nothing
    else. *)
Lemma delete_indexOf x l :
  x ∈ l →
  let l' := delete (Z.to_nat (indexOf x l)) l in
  occurrences x l = S (occurrences x l') ∧
  ∀ y, y ≠ x → (y ∈ l' ↔ y ∈ l).
Proof.
  unfold occurrences. induction l as [|z l IH]; intros Hin; simpl.
  - by apply elem_of_nil in Hin.
  - destruct (decide (z = x)) as [->|Hne]; simpl.
    + rewrite filter_cons, decide_True by done. split; [done |].
      intros y Hy. rewrite elem_of_cons. split; [by right | intros [?|?]; done].
    + apply elem_of_cons in Hin as [?|Hin]; [done |].
      pose proof (proj2 (indexOf_elem_of x l) Hin) as Hi.
      rewrite decide_True by done.
      replace (Z.to_nat (indexOf x l + 1)) with (S (Z.to_nat (indexOf x l))) by lia.
      simpl. destruct (IH Hin) as [Hocc Hother].
      rewrite !filter_cons, !decide_False by done. split; [done |].
      intros y Hy. rewrite !elem_of_cons, Hother by done. done.
Qed.

Lemma toggle_ids_other x l y : y ≠ x → y ∈ toggle_ids x l ↔ y ∈ l.
Proof.
  intros Hy. unfold toggle_ids. case_decide as Hi.
  - apply indexOf_elem_of in Hi. by apply delete_indexOf.
  - rewrite elem_of_app, list_elem_of_singleton. tauto.
Qed.

Lemma toggle_ids_occurrences x l :
  occurrences x (toggle_ids x l) =
    if decide (x ∈ l) then pred (occurrences x l) else 1%nat.
Proof.
  unfold toggle_ids. destruct (decide (x ∈ l)) as [Hin|Hnin].
  - rewrite decide_True by (by apply indexOf_elem_of).
    destruct (delete_indexOf x l Hin) as [-> _]. done.
  - rewrite decide_False by (by rewrite indexOf_elem_of).
    unfold occurrences. rewrite filter_app, length_app, filter_cons, decide_True by done.
    apply occurrences_not_elem_of in Hnin. unfold occurrences in Hnin.
    by rewrite Hnin.
Qed.

Lemma toggleTrack_selectedTrackIds x s :
  selectedTrackIds (exec (toggleTrack x) s) = toggle_ids x (selectedTrackIds s).
Proof.
  unfold toggleTrack, toggle_ids, exec, bind, get_state. simpl.
  by destruct (decide (0 ≤ indexOf x (selectedTrackIds s))).
Qed.

Lemma toggleTrack_tracks x s : tracks (exec (toggleTrack x) s) = tracks s.
Proof.
  unfold toggleTrack, exec, bind, get_state. simpl.
  by destruct (decide (0 ≤ indexOf x (selectedTrackIds s))).
Qed.

(** C10, at the input where it fails: with an id that is selected twice,
    two calls of [toggleTrack] take both occurrences out, and the id is no
    longer selected. *)
Lemma toggleTrack_twice_loses_duplicate :
  selectedTrackIds same_millisecond_state = ["1700000000300_0"; "1700000000300_0"] ∧
  ¬ (∀ x, x ∈ selectedTrackIds
              (exec (toggleTrack "1700000000300_0")
                 (exec (toggleTrack "1700000000300_0") same_millisecond_state))
          ↔ x ∈ selectedTrackIds same_millisecond_state).
Proof.
  split; [vm_compute; reflexivity |].
  intros Hsame. specialize (Hsame "1700000000300_0").
  vm_compute in Hsame. destruct Hsame as [_ Hback].
  assert ("1700000000300_0" ∈ @nil string) as Hin by (apply Hback; left).
  by apply elem_of_nil in Hin.
Qed.

(** C10, amended. For every track id that is not selected exactly twice (in
    particular when no id is selected twice), two calls of [toggleTrack] in
    succession restore the set of selected ids, and neither call changes
    the tracks. *)
Theorem toggleTrack_twice_restores (trackId : string) (s : State)
    (Hnot_twice : occurrences trackId (selectedTrackIds s) ≠ 2%nat) :
  let s1 := exec (toggleTrack trackId) s in
  let s2 := exec (toggleTrack trackId) s1 in
  (∀ x, x ∈ selectedTrackIds s2 ↔ x ∈ selectedTrackIds s) ∧
  tracks s1 = tracks s ∧ tracks s2 = tracks s.
Proof.
  intros s1 s2. subst s1 s2.
  rewrite !toggleTrack_tracks, !toggleTrack_selectedTrackIds.
  split; [| done]. intros x.
  destruct (decide (x = trackId)) as [->|Hne]; [| by rewrite !toggle_ids_other].
  set (l := selectedTrackIds s) in *.
  rewrite !occurrences_elem_of, !toggle_ids_occurrences.
  destruct (decide (trackId ∈ l)) as [Hin|Hnin].
  - apply occurrences_elem_of in Hin as Hocc.
    destruct (decide (trackId ∈ toggle_ids trackId l)) as [Hin'|Hnin'].
    + apply occurrences_elem_of in Hin'.
      rewrite toggle_ids_occurrences, decide_True in Hin' by done.
      split; [done | intros _; lia].
    + split; [done | intros _; lia].
  - rewrite decide_True.
    + simpl. apply occurrences_not_elem_of in Hnin. lia.
    + apply occurrences_elem_of. rewrite toggle_ids_occurrences.
      by rewrite decide_False.
Qed.

Lemma toggleTrack_twice_restores_witness :
  "1700000000300_0" ∈
    selectedTrackIds
      (exec (toggleTrack "1700000000300_0")
         (exec (toggleTrack "1700000000300_0")
            (set_selectedTrackIds ["1700000000100_0"; "1700000000300_0"]
               same_millisecond_state))) ∧
  "1700000000100_0" ∈
    selectedTrackIds
      (exec (toggleTrack "1700000000300_0")
         (exec (toggleTrack "1700000000300_0")
            (set_selectedTrackIds ["1700000000100_0"; "1700000000300_0"]
               same_millisecond_state))).
Proof.
  pose proof (toggleTrack_twice_restores "1700000000300_0"
                (set_selectedTrackIds ["1700000000100_0"; "1700000000300_0"]
                   same_millisecond_state)) as H.
  destruct H as [Hsame _]; [vm_compute; lia |].
  split; apply Hsame; simpl.
  - right. left.
  - left.
Defined.

(** ** Loading keeps at most one pair in edit mode *)

Lemma loadSelectedCourse_single_editing server s :
  at_most_one_editing (timeGates s) →
  at_most_one_editing (timeGates (exec (loadSelectedCourse server) s)).
Proof.
  intros Hone.
  destruct (selectedCourseId s) as [cid|] eqn:Hid;
    [| unfold loadSelectedCourse, exec, bind, get_state; by rewrite Hid].
  destruct (decide (cid = 0)) as [->|Hcid];
    [unfold loadSelectedCourse, exec, bind, get_state; by rewrite Hid |].
  destruct (course_at server (length (requests s))) as [msg|ok detail body] eqn:Hresp.
  2: destruct ok, body as [c|].
  2: { destruct (loadSelectedCourse_model server s cid detail c Hid Hcid Hresp)
         as (-> & _ & _).
       intros g1 g2 Hg1 _ Hed1 _. exfalso.
       apply list_elem_of_bind in Hg1 as (a & Hg1 & _).
       repeat (apply elem_of_cons in Hg1 as [->|Hg1]); try done.
       by apply elem_of_nil in Hg1. }
  all: unfold loadSelectedCourse, exec, bind at 1, get_state; rewrite Hid;
    replace (truthy_id (Some cid)) with true
      by (symmetry; simpl; apply negb_true_iff; by apply Z.eqb_neq);
    erewrite try_catch_bind_fail; [| unfold api_call; by rewrite Hresp];
    exact Hone.
Qed.

(** ** A new pair at the end of the flat gates *)

Lemma omap_set_fresh {V} (k : Z) (v : V) (m : list (Z * V)) :
  k ∉ m.*1 → OMap.set k v m = m ++ [(k, v)].
Proof.
  induction m as [|[k0 v0] m IH]; csimpl; [done |].
  rewrite not_elem_of_cons. intros [Hne Hk].
  rewrite decide_False by done. by rewrite IH.
Qed.

Lemma omap_set_last {V} (k : Z) (v v0 : V) (m : list (Z * V)) :
  k ∉ m.*1 → OMap.set k v (m ++ [(k, v0)]) = m ++ [(k, v)].
Proof.
  induction m as [|[k1 v1] m IH]; csimpl.
  - intros _. by rewrite decide_True.
  - rewrite not_elem_of_cons. intros [Hne Hk].
    rewrite decide_False by done. by rewrite IH.
Qed.

Lemma omap_get_None {V} (k : Z) (m : list (Z * V)) :
  OMap.get k m = None ↔ k ∉ m.*1.
Proof.
  induction m as [|[k0 v0] m IH]; csimpl.
  - split; [intros _; apply not_elem_of_nil | done].
  - rewrite not_elem_of_cons. destruct (decide (k = k0)) as [->|Hne].
    + split; [done | intros [? _]; done].
    + rewrite IH. tauto.
Qed.

Lemma omap_get_last {V} (k : Z) (v : V) (m : list (Z * V)) :
  k ∉ m.*1 → OMap.get k (m ++ [(k, v)]) = Some v.
Proof.
  induction m as [|[k1 v1] m IH]; csimpl.
  - intros _. by rewrite decide_True.
  - rewrite not_elem_of_cons. intros [Hne Hk]. by rewrite decide_False, IH.
Qed.

Section FreshPair.
Variable cps : gmap Z (list LatLon.t).
Variable names : gmap Z string.

Lemma groups_of_fresh_pair tg s e :
  Gate.pairId e = Gate.pairId s → Gate.pairId s ∉ Gate.pairId <$> tg →
  groups_of cps names (tg ++ [s; e]) =
    groups_of cps names tg
      ++ [(Gate.pairId s, pair_of cps names (Gate.pairId s) (tg ++ [s; e]))].
Proof.
  intros Hpe Hfresh.
  set (G := groups_of cps names tg). set (k := Gate.pairId s) in *.
  assert (k ∉ G.*1) as Hkeys.
  { apply omap_get_None. unfold G. rewrite groups_of_get. by rewrite decide_False. }
  assert (∃ E1, group_step cps names G s = G ++ [(k, E1)]) as [E1 H1].
  { eexists. unfold group_step. fold k. by rewrite omap_set_fresh. }
  assert (∃ E2, group_step cps names (G ++ [(k, E1)]) e = G ++ [(k, E2)]) as [E2 H2].
  { eexists. unfold group_step. rewrite Hpe. fold k. by rewrite omap_set_last. }
  pose proof (groups_of_get cps names (tg ++ [s; e]) k) as Hget.
  rewrite decide_True in Hget
    by (rewrite fmap_app; apply elem_of_app; right; left).
  replace (tg ++ [s; e]) with ((tg ++ [s]) ++ [e]) in * by (by rewrite <- app_assoc).
  rewrite !groups_of_snoc in *. fold G in Hget |- *.
  rewrite H1, H2 in Hget |- *.
  rewrite omap_get_last in Hget by done. by injection Hget as ->.
Qed.
End FreshPair.

Lemma gatePairs_fresh_pair cps names tg s e :
  Gate.type s = type_start → Gate.type e = type_end →
  Gate.pairId e = Gate.pairId s → Gate.pairId s ∉ Gate.pairId <$> tg →
  gatePairs cps names (tg ++ [s; e]) =
    gatePairs cps names tg
      ++ [Pair.mk (Gate.pairId s)
            (js_or_str (js_or (names !! Gate.pairId s) (js_or (Gate.name e) (Gate.name s)))
               (default_name (Gate.pairId s)))
            (Some s) (Some e) (checkpoints_of cps (Gate.pairId s))
            (Gate.confirmed s && Gate.confirmed e)
            (Gate.editing s || Gate.editing e)].
Proof.
  intros Hs He Hpe Hfresh. unfold gatePairs, OMap.values.
  rewrite groups_of_fresh_pair by done.
  rewrite fmap_app, filter_app. f_equal. csimpl.
  unfold pair_of, pair_name.
  replace (tg ++ [s; e]) with ((tg ++ [s]) ++ [e]) by (by rewrite <- app_assoc).
  rewrite !last_gate_snoc, !carried_name_snoc, Hs, He, Hpe.
  rewrite (last_gate_absent _ _ tg), (carried_name_absent _ tg) by done.
  rewrite !(decide_True (P := Gate.pairId s = Gate.pairId s)) by done.
  rewrite ?(decide_False (P := _ ∧ type_end = type_start)) by (intros [_ ?]; done).
  rewrite ?(decide_True (P := _ ∧ type_start = type_start)) by done.
  rewrite ?(decide_False (P := _ ∧ type_start = type_end)) by (intros [_ ?]; done).
  rewrite ?(decide_True (P := _ ∧ type_end = type_end)) by done.
  rewrite filter_cons, decide_True by done. rewrite filter_nil. simpl.
  do 2 f_equal. generalize (names !! Gate.pairId s) (Gate.name e) (Gate.name s).
  intros c ne ns. js_cases.
Qed.

(** Copying the checkpoints field by field gives the same list. *)
Lemma copy_checkpoints (l : list LatLon.t) :
  (λ c, LatLon.mk (LatLon.lat c) (LatLon.lon c)) <$> l = l.
Proof. induction l as [|[] l IH]; csimpl; [done |]. by rewrite IH. Qed.

Lemma gatePairsToApiPayload_app s p l :
  gatePairs (pairCheckpoints s) (pairNames s) (timeGates s) = l ++ [p] →
  gatePairsToApiPayload s =
    omap api_gate (filter (λ p, complete p && Pair.confirmed p = true) l)
      ++ (if complete p && Pair.confirmed p then option_list (api_gate p) else []).
Proof.
  intros Hl. unfold gatePairsToApiPayload. rewrite Hl, filter_app, omap_app.
  f_equal. rewrite filter_cons, filter_nil.
  destruct (complete p && Pair.confirmed p); simpl; [| done].
  by destruct (api_gate p).
Qed.

(** X1. [addGatePair] adds exactly one pair, after the pairs there were: it
    has the smallest positive id that no gate uses, is unconfirmed and in
    edit mode, is named by the custom name left for that id if any and by
    ["Gate Pair {id}"] otherwise; the payload of confirmed pairs is the same
    as before. *)
Theorem addGatePair_appends_one_pair (c : LatLon.t) (now : Z) (s : State) :
  let s' := exec (addGatePair c now) s in
  let k := nextPairId s in
  ∃ p,
    gatePairs (pairCheckpoints s') (pairNames s') (timeGates s') =
      gatePairs (pairCheckpoints s) (pairNames s) (timeGates s) ++ [p] ∧
    Pair.pairId p = k ∧
    (k ∉ Gate.pairId <$> timeGates s) ∧
    Pair.confirmed p = false ∧ Pair.editing p = true ∧
    Pair.name p = js_or_str (pairNames s !! k) (default_name k) ∧
    Pair.checkpoints p = checkpoints_of (pairCheckpoints s) k ∧
    gatePairsToApiPayload s' = gatePairsToApiPayload s.
Proof.
  intros s' k. destruct (nextPairId_spec s) as (_ & Hfresh & _). fold k in Hfresh.
  assert (pairCheckpoints s' = pairCheckpoints s) as Hcp by reflexivity.
  assert (pairNames s' = pairNames s) as Hnm by reflexivity.
  pose proof (addGatePair_timeGates c now s) as Htg. fold s' k in Htg.
  eexists. split.
  { rewrite Hcp, Hnm, Htg. by apply gatePairs_fresh_pair. }
  simpl. split_and!; try done.
  - generalize (pairNames s !! k). intros o. pose proof (default_name_truthy k).
    unfold js_or at 2. rewrite H. unfold js_or. destruct (truthy o) eqn:Ho.
    + done.
    + rewrite (falsy_js_or_str o) by done. by rewrite truthy_js_or_str.
  - erewrite (gatePairsToApiPayload_app s').
    2: { rewrite Hcp, Hnm, Htg. by apply gatePairs_fresh_pair. }
    assert (∀ p, Pair.confirmed p = false →
                 (if complete p && Pair.confirmed p
                  then option_list (api_gate p) else []) = []) as Hno
      by (intros p ->; by rewrite andb_false_r).
    rewrite Hno by reflexivity. by rewrite app_nil_r.
Qed.

(** ** More on the aggregator and the payload *)

(** X2. [nextPairId] returns the smallest positive integer that is the
    [pairId] of no gate: it is at least 1, no gate has it, and every
    positive integer below it is the [pairId] of a gate. With no gate it
    is 1. *)
Theorem nextPairId_smallest_unused (s : State) :
  1 ≤ nextPairId s ∧
  (∀ g, g ∈ timeGates s → Gate.pairId g ≠ nextPairId s) ∧
  (∀ j, 1 ≤ j < nextPairId s → ∃ g, g ∈ timeGates s ∧ Gate.pairId g = j) ∧
  (timeGates s = [] → nextPairId s = 1).
Proof.
  destruct (nextPairId_spec s) as (Hpos & Hfresh & Hbelow). split_and!.
  - done.
  - intros g Hg Heq. apply Hfresh. rewrite <- Heq. by apply list_elem_of_fmap_2.
  - intros j Hj. apply Hbelow, list_elem_of_fmap in Hj as (g & -> & Hg). by exists g.
  - intros Hnil. unfold nextPairId. by rewrite Hnil.
Qed.

Lemma js_or_str_nonempty a d : d ≠ "" → js_or_str a d ≠ "".
Proof.
  intros Hd. destruct a as [x|]; simpl; [| done].
  destruct (String.eqb x "") eqn:Hx; [done |]. by apply String.eqb_neq in Hx.
Qed.

Lemma default_name_nonempty k : default_name k ≠ "".
Proof. done. Qed.

(** X3. The aggregator outputs at most one pair for each [pairId], and the
    name of every pair it outputs is a non-empty string. *)
Theorem gatePairs_distinct_ids_and_named
    (cps : gmap Z (list LatLon.t)) (names : gmap Z string) (tg : list Gate.t) :
  NoDup (Pair.pairId <$> gatePairs cps names tg) ∧
  (∀ p, p ∈ gatePairs cps names tg → Pair.name p ≠ "").
Proof.
  split; [apply gatePairs_NoDup |].
  intros p (_ & -> & _)%elem_of_gatePairs. simpl. unfold pair_name.
  apply js_or_str_nonempty, default_name_nonempty.
Qed.

Lemma gatePairs_distinct_ids_and_named_aux cps names tg :
  Forall (λ p, complete p = true ∧ Pair.name p ≠ "") (gatePairs cps names tg).
Proof.
  apply Forall_forall. intros p Hp.
  pose proof Hp as (_ & Heq & Hc)%elem_of_gatePairs. split; [done |].
  rewrite Heq. simpl. unfold pair_name.
  apply js_or_str_nonempty, default_name_nonempty.
Qed.

(** X4. The edit flag and the checkpoints of every output pair: [editing] is
    true exactly when its start gate or its end gate is in edit mode, and
    its checkpoints are the list stored for its [pairId], in the stored
    order, or the empty list when none is stored. *)
Theorem gatePairs_editing_and_checkpoints
    (cps : gmap Z (list LatLon.t)) (names : gmap Z string) (tg : list Gate.t) :
  Forall (λ p,
            (∃ s e, Pair.start p = Some s ∧ Pair.end_ p = Some e ∧
                    (Pair.editing p = true ↔
                       Gate.editing s = true ∨ Gate.editing e = true)) ∧
            Pair.checkpoints p = default [] (cps !! Pair.pairId p))
    (gatePairs cps names tg).
Proof.
  apply Forall_forall.
  intros p (_ & Hp & Hc)%elem_of_gatePairs. rewrite Hp in Hc |- *.
  unfold complete in Hc. simpl in *.
  apply andb_true_iff in Hc as [[s Hs]%bool_decide_eq_true [e He]%bool_decide_eq_true].
  split; [| done]. exists s, e. rewrite Hs, He. simpl.
  split_and!; try done. apply orb_true_iff.
Qed.

(** X5. [gatePairsToApiPayload] has one gate for each confirmed pair of the
    aggregator, in the same order, with the id and the name of the pair (the
    fallback name is never needed), the positions of its start and end
    gates, and its checkpoints in their order. *)
Theorem gatePairsToApiPayload_confirmed_pairs (s : State) :
  Forall2 (λ p a,
             ApiGate.pairId a = Pair.pairId p ∧ ApiGate.name a = Pair.name p ∧
             (∃ g, Pair.start p = Some g ∧
                   ApiGate.start a = LatLon.mk (Gate.lat g) (Gate.lon g)) ∧
             (∃ g, Pair.end_ p = Some g ∧
                   ApiGate.end_ a = LatLon.mk (Gate.lat g) (Gate.lon g)) ∧
             ApiGate.checkpoints a = Some (Pair.checkpoints p))
    (filter (λ p, Pair.confirmed p = true)
       (gatePairs (pairCheckpoints s) (pairNames s) (timeGates s)))
    (gatePairsToApiPayload s).
Proof.
  unfold gatePairsToApiPayload.
  pose proof (gatePairs_distinct_ids_and_named_aux (pairCheckpoints s) (pairNames s)
                (timeGates s)) as Hall.
  induction (gatePairs (pairCheckpoints s) (pairNames s) (timeGates s)) as [|p l IH].
  - constructor.
  - apply Forall_cons in Hall as [[Hc Hname] Hall].
    rewrite !filter_cons. destruct (Pair.confirmed p) eqn:Hconf.
    + rewrite decide_True by done. rewrite decide_True by (by rewrite Hc).
      unfold complete in Hc.
      apply andb_true_iff in Hc
        as [[st Hs]%bool_decide_eq_true [en He]%bool_decide_eq_true].
      csimpl. unfold api_gate at 1. rewrite Hs, He.
      constructor; [| by apply IH].
      simpl. split_and!; eauto.
      * destruct (String.eqb (Pair.name p) "") eqn:Hx; [| done].
        by apply String.eqb_eq in Hx.
      * by rewrite copy_checkpoints.
    + rewrite decide_False by done.
      rewrite decide_False by (by rewrite andb_false_r).
      by apply IH.
Qed.

(** ** Edit mode and confirmation, composed *)

(** X6. [startEditing(q)] puts exactly the gates of pair [q] in edit mode,
    and it undoes an earlier [startEditing(p)]: calling [startEditing(p)]
    and then [startEditing(q)] leaves the state that [startEditing(q)] alone
    leaves. *)
Theorem startEditing_last_call_wins (p q : Z) (s : State) :
  Forall (λ g, Gate.editing g = true ↔ Gate.pairId g = q)
    (timeGates (exec (startEditing q) s)) ∧
  exec (startEditing q) (exec (startEditing p) s) = exec (startEditing q) s.
Proof.
  split.
  - rewrite startEditing_timeGates. apply Forall_fmap, Forall_forall.
    intros g _. simpl.
    destruct (startEditing_gate_fields q g) as (_ & -> & _ & _ & _ & _ & _ & ->).
    apply bool_decide_eq_true.
  - assert (∀ g, startEditing_gate q (startEditing_gate p g) = startEditing_gate q g)
      as Hgate.
    { intros [i k n ty la lo c e]. unfold startEditing_gate. simpl.
      destruct (bool_decide (k ≠ p)), (bool_decide (k ≠ q)), c; simpl; try done;
        destruct (bool_decide (k ≠ q)); done. }
    assert (∀ s0, exec (startEditing q) s0 =
                  redrawGates_state
                    (set_timeGates (startEditing_gate q <$> timeGates s0) s0))
      as Hexec by reflexivity.
    rewrite !Hexec.
    assert (startEditing_gate q <$> timeGates (exec (startEditing p) s)
            = startEditing_gate q <$> timeGates s) as ->.
    { rewrite startEditing_timeGates, <- list_fmap_compose.
      apply list_fmap_ext. intros ? g ?. apply Hgate. }
    reflexivity.
Qed.

Lemma head_filter_NoDup {A} (f : A → Z) (l : list A) (x : A) :
  NoDup (f <$> l) → x ∈ l → head (filter (λ y, f y = f x) l) = Some x.
Proof.
  induction l as [|y l IH]; csimpl; intros Hnd Hin; [by apply elem_of_nil in Hin |].
  apply NoDup_cons in Hnd as [Hy Hnd]. rewrite filter_cons.
  apply elem_of_cons in Hin as [->|Hin].
  - by rewrite decide_True.
  - rewrite decide_False; [by apply IH |].
    intros Heq. apply Hy. rewrite Heq. by apply list_elem_of_fmap_2.
Qed.

Section Confirming.
Variable server : Server.

(** The gate model after [saveAndConfirmGate]. *)
Lemma saveAndConfirmGate_model pid s :
  let newName :=
    js_or_str
      (Pair.name <$>
         head (filter (λ p, Pair.pairId p = pid)
                 (gatePairs (pairCheckpoints s) (pairNames s) (timeGates s))))
      (default_name pid) in
  let s' := exec (saveAndConfirmGate server pid) s in
  timeGates s' =
    (λ g, if decide (Gate.pairId g ≠ pid) then g
          else Gate.mk (Gate.id g) (Gate.pairId g) (Some newName)
                 (Gate.type g) (Gate.lat g) (Gate.lon g) true false)
      <$> timeGates s ∧
  pairCheckpoints s' = pairCheckpoints s ∧
  pairNames s' = <[pid := newName]> (pairNames s).
Proof.
  intros newName s'.
  set (f := λ g : Gate.t,
         if decide (Gate.pairId g ≠ pid) then g
         else Gate.mk (Gate.id g) (Gate.pairId g) (Some newName)
                (Gate.type g) (Gate.lat g) (Gate.lon g) true false).
  set (s2 := redrawGates_state
               (set_timeGates (f <$> timeGates s)
                  (set_pairNames (<[pid := newName]> (pairNames s)) s))).
  assert (s' = exec (fetchLeaderboard server)
                 (exec (recalcAllSegmentTimes server) s2)) as -> by reflexivity.
  destruct (fetchLeaderboard_same_gates server
              (exec (recalcAllSegmentTimes server) s2)) as (H1 & H2 & H3).
  destruct (recalcAllSegmentTimes_same_gates server s2) as (H4 & H5 & H6).
  unfold exec in *. rewrite H1, H2, H3, H4, H5, H6. done.
Qed.

(** X7. [saveAndConfirmGate(pairId)] on a pair of the aggregator: the pair
    is confirmed and out of edit mode afterwards, it keeps its name and its
    checkpoints, the name is stored as the custom name of the pair, and the
    gates of the other pairs are untouched. *)
Theorem saveAndConfirmGate_confirms_pair (pid : Z) (s : State) (p : Pair.t)
    (Hp : p ∈ gatePairs (pairCheckpoints s) (pairNames s) (timeGates s))
    (Hid : Pair.pairId p = pid) :
  let s' := exec (saveAndConfirmGate server pid) s in
  pairNames s' !! pid = Some (Pair.name p) ∧
  (∃ p', p' ∈ gatePairs (pairCheckpoints s') (pairNames s') (timeGates s') ∧
         Pair.pairId p' = pid ∧ Pair.confirmed p' = true ∧
         Pair.editing p' = false ∧ Pair.name p' = Pair.name p ∧
         Pair.checkpoints p' = Pair.checkpoints p) ∧
  filter (λ g, Gate.pairId g ≠ pid) (timeGates s')
    = filter (λ g, Gate.pairId g ≠ pid) (timeGates s).
Proof.
  intros s'. destruct (saveAndConfirmGate_model pid s) as (Htg & Hcp & Hnm).
  fold s' in Htg, Hcp, Hnm.
  assert (Pair.name p ≠ "") as Hnonempty.
  { pose proof (gatePairs_distinct_ids_and_named_aux (pairCheckpoints s) (pairNames s)
                  (timeGates s)) as Hall.
    rewrite Forall_forall in Hall. by apply Hall. }
  assert (js_or_str
            (Pair.name <$>
               head (filter (λ p, Pair.pairId p = pid)
                       (gatePairs (pairCheckpoints s) (pairNames s) (timeGates s))))
            (default_name pid) = Pair.name p) as Hname.
  { rewrite <- Hid, (head_filter_NoDup Pair.pairId) by (apply gatePairs_NoDup || done).
    simpl. destruct (String.eqb (Pair.name p) "") eqn:Hx; [| done].
    by apply String.eqb_eq in Hx. }
  rewrite Hname in Htg, Hnm. clear Hname.
  set (f := λ g : Gate.t,
         if decide (Gate.pairId g ≠ pid) then g
         else Gate.mk (Gate.id g) (Gate.pairId g) (Some (Pair.name p))
                (Gate.type g) (Gate.lat g) (Gate.lon g) true false) in Htg.
  assert (∀ g, Gate.pairId (f g) = Gate.pairId g) as Hfid
    by (intros g; unfold f; by case_decide).
  assert (∀ g, Gate.type (f g) = Gate.type g) as Hfty
    by (intros g; unfold f; by case_decide).
  apply elem_of_gatePairs in Hp as (Hin & Hp & Hc). rewrite Hid in Hin, Hp.
  rewrite Hp in Hc. unfold complete in Hc. simpl in Hc.
  apply andb_true_iff in Hc as [[st Hst]%bool_decide_eq_true [en Hen]%bool_decide_eq_true].
  pose proof (last_gate_Some _ _ _ _ Hst) as (_ & Hstid & _).
  pose proof (last_gate_Some _ _ _ _ Hen) as (_ & Henid & _).
  split_and!.
  - rewrite Hnm. apply lookup_insert_eq.
  - exists (pair_of (pairCheckpoints s') (pairNames s') pid (timeGates s')).
    split_and!.
    + apply elem_of_gatePairs. simpl. split_and!; [| done |].
      * rewrite Htg, <- list_fmap_compose.
        erewrite list_fmap_ext; [exact Hin |]. intros ? g ?. apply Hfid.
      * unfold complete. simpl. rewrite Htg, !last_gate_fmap, Hst, Hen by done.
        done.
    + done.
    + simpl. rewrite Htg, !last_gate_fmap, Hst, Hen by done. simpl.
      unfold f. rewrite !decide_False by (intros ?; congruence). done.
    + simpl. rewrite Htg, !last_gate_fmap, Hst, Hen by done. simpl.
      unfold f. rewrite !decide_False by (intros ?; congruence). done.
    + simpl. unfold pair_name. rewrite Hnm, lookup_insert_eq.
      unfold js_or. simpl.
      destruct (String.eqb (Pair.name p) "") eqn:Hx;
        [by apply String.eqb_eq in Hx |].
      simpl. by rewrite Hx.
    + simpl. rewrite Hcp, Hp. done.
  - rewrite Htg. clear -Hfid. induction (timeGates s) as [|g l IH]; [done |].
    csimpl. rewrite !filter_cons.
    destruct (decide (Gate.pairId g ≠ pid)) as [Hne|Heq].
    + rewrite decide_True by (by rewrite Hfid).
      assert (f g = g) as -> by (unfold f; by rewrite decide_True). by rewrite IH.
    + rewrite decide_False by (by rewrite Hfid). exact IH.
Qed.
End Confirming.

Lemma saveAndConfirmGate_confirms_pair_witness :
  ∃ p', p' ∈ gatePairs (pairCheckpoints (exec (saveAndConfirmGate sample_server 1) two_pairs_state))
                (pairNames (exec (saveAndConfirmGate sample_server 1) two_pairs_state))
                (timeGates (exec (saveAndConfirmGate sample_server 1) two_pairs_state)) ∧
        Pair.pairId p' = 1 ∧ Pair.confirmed p' = true ∧ Pair.editing p' = false.
Proof.
  eassert (_ ∈ gatePairs (pairCheckpoints two_pairs_state) (pairNames two_pairs_state)
                 (timeGates two_pairs_state)) as Hp by (vm_compute; left).
  destruct (saveAndConfirmGate_confirms_pair sample_server 1 two_pairs_state _ Hp eq_refl)
    as (_ & (p' & ? & ? & ? & ? & _) & _).
  by exists p'.
Defined.

(** ** Removing a pair leaves the others as they were *)

Section OMapFilter.
Context {V : Type}.
Implicit Types (m : list (Z * V)).

Lemma omap_filter_set_eq pid (v : V) m :
  filter (λ kv, kv.1 ≠ pid) (OMap.set pid v m) = filter (λ kv, kv.1 ≠ pid) m.
Proof.
  induction m as [|[k0 v0] m IH]; csimpl.
  - by rewrite filter_cons, decide_False by (simpl; intros ?; done).
  - destruct (decide (pid = k0)) as [<-|Hne].
    + by rewrite !filter_cons, !decide_False by (simpl; intros ?; done).
    + by rewrite !filter_cons, IH.
Qed.

Lemma omap_filter_set_ne pid k (v : V) m :
  k ≠ pid →
  filter (λ kv, kv.1 ≠ pid) (OMap.set k v m) = OMap.set k v (filter (λ kv, kv.1 ≠ pid) m).
Proof.
  intros Hk. induction m as [|[k0 v0] m IH]; csimpl.
  - by rewrite filter_cons, decide_True.
  - destruct (decide (k = k0)) as [<-|Hne].
    + rewrite !filter_cons, !decide_True by done. csimpl. by rewrite decide_True.
    + rewrite !filter_cons, IH. case_decide; [| done].
      csimpl. by rewrite decide_False.
Qed.

Lemma omap_filter_get pid k m :
  k ≠ pid → OMap.get k (filter (λ kv, kv.1 ≠ pid) m) = OMap.get k m.
Proof.
  intros Hk. induction m as [|[k0 v0] m IH]; csimpl; [done |].
  rewrite filter_cons. destruct (decide (k = k0)) as [<-|Hne].
  - rewrite decide_True by done. csimpl. by rewrite decide_True.
  - case_decide; [| done]. csimpl. by rewrite decide_False.
Qed.
End OMapFilter.

Lemma groups_of_remove cps names cps' names' pid tg :
  (∀ k, k ≠ pid → cps' !! k = cps !! k ∧ names' !! k = names !! k) →
  groups_of cps' names' (filter (λ g, Gate.pairId g ≠ pid) tg) =
    filter (λ kv, kv.1 ≠ pid) (groups_of cps names tg).
Proof.
  intros Hmaps. induction tg as [|g tg IH] using rev_ind; [done |].
  rewrite filter_app, groups_of_snoc, filter_cons, filter_nil.
  unfold group_step at 1. destruct (decide (Gate.pairId g ≠ pid)) as [Hne|Heq].
  - rewrite groups_of_snoc, IH. unfold group_step.
    rewrite omap_filter_get, omap_filter_set_ne by done.
    destruct (Hmaps _ Hne) as [Hc Hn].
    unfold update_entry, fresh_entry, checkpoints_of. by rewrite Hc, Hn.
  - apply dec_stable in Heq. rewrite app_nil_r, Heq, omap_filter_set_eq. exact IH.
Qed.

Lemma groups_of_keys cps names tg :
  Forall (λ kv, Pair.pairId kv.2 = kv.1) (groups_of cps names tg).
Proof.
  apply Forall_forall. intros [k e] Hin.
  apply omap_elem_of_get in Hin; [| apply groups_of_NoDup].
  rewrite groups_of_get in Hin. case_decide; [| done]. by injection Hin as <-.
Qed.

Lemma gatePairs_remove cps names cps' names' pid tg :
  (∀ k, k ≠ pid → cps' !! k = cps !! k ∧ names' !! k = names !! k) →
  gatePairs cps' names' (filter (λ g, Gate.pairId g ≠ pid) tg) =
    filter (λ p, Pair.pairId p ≠ pid) (gatePairs cps names tg).
Proof.
  intros Hmaps. unfold gatePairs, OMap.values.
  rewrite (groups_of_remove cps names) by done.
  pose proof (groups_of_keys cps names tg) as Hkeys.
  induction (groups_of cps names tg) as [|[k e] m IH]; [done |].
  apply Forall_cons in Hkeys as [Hk Hkeys]. simpl in Hk. subst k.
  csimpl. rewrite !filter_cons. simpl.
  destruct (decide (Pair.pairId e ≠ pid)); csimpl; rewrite ?filter_cons;
    destruct (decide (complete e = true)); rewrite ?filter_cons, ?IH by done;
    try done.
  - by rewrite decide_True.
  - by rewrite decide_False.
Qed.

Section Removing.
Variable server : Server.

(** X8. [removeGatePair(pairId)] leaves the other pairs as they were: the
    aggregator outputs the pairs it output before, in the same order, but
    for the removed one; and so does the payload of confirmed pairs. *)
Theorem removeGatePair_keeps_other_pairs (pid : Z) (s : State) :
  let s' := exec (removeGatePair server pid) s in
  gatePairs (pairCheckpoints s') (pairNames s') (timeGates s') =
    filter (λ p, Pair.pairId p ≠ pid)
      (gatePairs (pairCheckpoints s) (pairNames s) (timeGates s)) ∧
  gatePairsToApiPayload s' =
    filter (λ a, ApiGate.pairId a ≠ pid) (gatePairsToApiPayload s).
Proof.
  intros s'. destruct (removeGatePair_gates server pid s) as (Htg & Hcp & Hnm).
  fold s' in Htg, Hcp, Hnm.
  assert (gatePairs (pairCheckpoints s') (pairNames s') (timeGates s') =
            filter (λ p, Pair.pairId p ≠ pid)
              (gatePairs (pairCheckpoints s) (pairNames s) (timeGates s))) as Hpairs.
  { rewrite Htg, Hcp, Hnm. apply gatePairs_remove.
    intros k Hk. by rewrite !lookup_delete_ne. }
  split; [done |]. unfold gatePairsToApiPayload. rewrite Hpairs. clear Hpairs.
  induction (gatePairs (pairCheckpoints s) (pairNames s) (timeGates s)) as [|p l IH];
    [done |].
  rewrite !filter_cons.
  assert (∀ a, api_gate p = Some a → ApiGate.pairId a = Pair.pairId p) as Hapi.
  { unfold api_gate. destruct (Pair.start p), (Pair.end_ p); try done.
    by intros a [= <-]. }
  destruct (decide (Pair.pairId p ≠ pid)) as [Hne|Heq].
  - rewrite filter_cons.
    destruct (decide (complete p && Pair.confirmed p = true)); [| exact IH].
    csimpl. destruct (api_gate p) as [a|] eqn:Ha; [| exact IH].
    rewrite filter_cons, decide_True by (by rewrite (Hapi a)). by rewrite IH.
  - destruct (decide (complete p && Pair.confirmed p = true)); [| exact IH].
    csimpl. destruct (api_gate p) as [a|] eqn:Ha; [| exact IH].
    rewrite filter_cons, decide_False by (by rewrite (Hapi a)). exact IH.
Qed.
End Removing.

(** ** Resets *)

(** X9. [clearAllGates], [deselectCourse] and [startNewCourse] leave no gate,
    no checkpoint, no custom name and no marker, hence no pair, and make no
    request. [clearAllGates] also empties the [segmentTimes] of every track;
    the other two leave the tracks, with the segment times computed for the
    gates that are gone, as they are. *)
Theorem resets_empty_the_gate_model (server : Server) (s : State) :
  let emptied s' :=
    timeGates s' = [] ∧ pairCheckpoints s' = ∅ ∧ pairNames s' = ∅ ∧
    gateMarkers s' = [] ∧ checkpointMarkers s' = [] ∧
    gatePairs (pairCheckpoints s') (pairNames s') (timeGates s') = [] ∧
    requests s' = requests s in
  (emptied (exec (clearAllGates server) s) ∧
   tracks (exec (clearAllGates server) s) = Track.set_segmentTimes [] <$> tracks s) ∧
  (emptied (exec deselectCourse s) ∧ tracks (exec deselectCourse s) = tracks s) ∧
  (emptied (exec startNewCourse s) ∧ tracks (exec startNewCourse s) = tracks s).
Proof.
  intros emptied. subst emptied. split_and!; try reflexivity.
  all: unfold clearAllGates, exec, bind, detached, modify, redrawGates, exec,
         recalcAllSegmentTimes, bind, get_state; simpl;
       destruct (tracks s) eqn:Htr; simpl; rewrite ?Htr; reflexivity.
Qed.

(** ** The leaderboard ([fetchLeaderboard]) *)

(** X10. [fetchLeaderboard] never rejects. Without a selected course it
    empties the leaderboard and makes no request; with one it makes the one
    request for that course and stores the entries of the answer, or the
    empty list when the request fails or the answer has no entries. *)
Theorem fetchLeaderboard_outcomes (server : Server) (s : State) :
  let r := fetchLeaderboard server s in
  r.1 = inr tt ∧
  (truthy_id (selectedCourseId s) = false →
     leaderboard r.2 = [] ∧ requests r.2 = requests s) ∧
  (∀ cid, selectedCourseId s = Some cid → cid ≠ 0 →
     requests r.2 = requests s ++ [GetLeaderboard cid] ∧
     leaderboard r.2 =
       match leaderboard_at server (length (requests s)) with
       | fetch_response true _ (Some data) => default [] (entries data)
       | _ => []
       end).
Proof.
  intros r. subst r. unfold fetchLeaderboard, bind, get_state.
  destruct (selectedCourseId s) as [cid|] eqn:Hid; simpl.
  - destruct (cid =? 0) eqn:Hz; simpl.
    + split_and!; [done | done |].
      intros ? [= <-] Hne. by apply Z.eqb_eq in Hz.
    + unfold try_catch, bind, api_call.
      destruct (leaderboard_at server (length (requests s))) as [msg|[] d [data|]];
        simpl; (split_and!; [done | done |]); by intros ? [= <-] _.
  - split_and!; done.
Qed.

(** ** Segment times, for any number of tracks *)

Section SegmentTimesAll.
Variable server : Server.

Lemma recalc_loop_returns gates buffer_m todo i s :
  (recalc_loop server gates buffer_m todo i s).1 = inr tt.
Proof.
  revert i s. induction todo as [|t0 rest IH]; intros i s; simpl; [done |].
  unfold bind at 1.
  assert (∃ s1,
            match Track.points t0 with
            | [] => store_segmentTimes i []
            | _ :: _ =>
                try_catch
                  (bind (api_call
                           (PostSegmentTimes (request_point <$> Track.points t0)
                              gates buffer_m) (segments_at server))
                     (λ data, store_segmentTimes i (default [] (segments data))))
                  (λ _, store_segmentTimes i [])
            end s = (inr tt, s1)) as [s1 ->].
  { destruct (Track.points t0); [by eexists |].
    unfold try_catch, bind. rewrite api_call_segments.
    destruct (segments_at server (length (requests s))) as [?|[] ? [?|]];
      by eexists. }
  apply IH.
Qed.

Lemma recalc_results_fields answers n todo :
  Forall2 (λ t0 t',
             Track.id t' = Track.id t0 ∧ Track.name t' = Track.name t0 ∧
             Track.points t' = Track.points t0 ∧ Track.color t' = Track.color t0 ∧
             is_Some (Track.segmentTimes t') ∧
             (Track.points t0 = [] → Track.segmentTimes t' = Some []))
    todo (recalc_results answers n todo).
Proof.
  revert n. induction todo as [|t0 rest IH]; intros n; simpl; [constructor |].
  unfold has_points. destruct (Track.points t0) eqn:Hpts.
  - constructor; [| apply IH]. simpl. split_and!; eauto.
  - constructor; [| apply IH]. simpl. split_and!; eauto.
    by rewrite Hpts.
Qed.

(** X11. [recalcAllSegmentTimes] never rejects, whatever the server answers.
    It keeps the tracks in place with their id, name, points and colour;
    with at least one confirmed pair it makes exactly one request for each
    track that has points, in the order of the tracks, and none otherwise;
    with at least one track, every track ends with a [segmentTimes] list,
    empty for a track without points. *)
Theorem recalcAllSegmentTimes_every_track (s : State) :
  let r := recalcAllSegmentTimes server s in
  r.1 = inr tt ∧
  requests r.2 =
    requests s ++
      match gatePairsToApiPayload s with
      | [] => []
      | gates =>
          segment_request gates (js_or_num (bufferMeters s) 10)
            <$> filter (λ t0, has_points t0 = true) (tracks s)
      end ∧
  Forall2 (λ t0 t',
             Track.id t' = Track.id t0 ∧ Track.name t' = Track.name t0 ∧
             Track.points t' = Track.points t0 ∧ Track.color t' = Track.color t0 ∧
             is_Some (Track.segmentTimes t') ∧
             (Track.points t0 = [] → Track.segmentTimes t' = Some []))
    (tracks s) (tracks r.2).
Proof.
  intros r. destruct (gatePairsToApiPayload s) as [|a gates] eqn:Hpayload.
  - subst r. unfold recalcAllSegmentTimes, bind, get_state.
    destruct (tracks s) as [|t0 ts] eqn:Htr; simpl.
    + rewrite Htr, app_nil_r. split_and!; [done | done | constructor].
    + rewrite Hpayload. simpl. rewrite Htr, app_nil_r.
      split_and!; [done | done |].
      apply Forall2_fmap_r, Forall_Forall2_diag, Forall_forall.
      intros t1 _. simpl. split_and!; eauto.
  - assert (gatePairsToApiPayload s ≠ []) as Hne by (by rewrite Hpayload).
    destruct (recalcAllSegmentTimes_closed_form server s Hne) as [Htr Hreq].
    unfold exec in Htr, Hreq. fold r in Htr, Hreq. rewrite Hpayload in Hreq.
    split_and!.
    + subst r. unfold recalcAllSegmentTimes, bind, get_state.
      destruct (tracks s); [done |]. rewrite Hpayload. apply recalc_loop_returns.
    + exact Hreq.
    + rewrite Htr. apply recalc_results_fields.
Qed.
End SegmentTimesAll.

(** ** A load that fails *)

Section LoadFailure.
Variable server : Server.

(** X12. When the request of [loadSelectedCourse] fails (thrown error,
    non-success response, unreadable body), the method shows one alert
    starting with ["Load failed: "] and changes nothing else but the log of
    requests: gates, checkpoints, names, tracks, buffer distance,
    leaderboard, loaded course and creation flag are those of before. *)
Theorem loadSelectedCourse_failure_changes_nothing (s : State) (cid : Z)
    (Hselected : selectedCourseId s = Some cid) (Hcid : cid ≠ 0)
    (Hfailed : failed (course_at server (length (requests s)))) :
  ∃ msg,
    exec (loadSelectedCourse server) s =
      set_alerts (alerts s ++ ["Load failed: " +:+ msg])
        (set_requests (requests s ++ [GetCourse cid]) s).
Proof.
  unfold loadSelectedCourse, exec, bind at 1, get_state. rewrite Hselected.
  replace (truthy_id (Some cid)) with true
    by (symmetry; simpl; apply negb_true_iff; by apply Z.eqb_neq).
  destruct (course_at server (length (requests s))) as [msg|ok detail body] eqn:Hresp.
  - exists msg.
    rewrite (try_catch_bind_fail _ _ _ s msg
               (set_requests (requests s ++ [GetCourse cid]) s)); [reflexivity |].
    unfold api_call. by rewrite Hresp.
  - exists detail.
    rewrite (try_catch_bind_fail _ _ _ s detail
               (set_requests (requests s ++ [GetCourse cid]) s)); [reflexivity |].
    unfold api_call. rewrite Hresp. simpl in Hfailed.
    destruct Hfailed as [-> | ->]; [done | by destruct ok].
Qed.
End LoadFailure.

Lemma loadSelectedCourse_failure_changes_nothing_witness :
  ∃ msg,
    exec (loadSelectedCourse failing_server)
      (set_selectedCourseId (Some 7) three_pairs_state) =
    set_alerts ["Load failed: " +:+ msg]
      (set_requests [GetCourse 7] (set_selectedCourseId (Some 7) three_pairs_state)).
Proof.
  apply (loadSelectedCourse_failure_changes_nothing failing_server
           (set_selectedCourseId (Some 7) three_pairs_state) 7).
  - reflexivity.
  - lia.
  - simpl. by left.
Defined.

(** ** Loading and saving: a round trip *)

Lemma loaded_names_lookup gates g :
  NoDup (ApiGate.pairId <$> gates) → g ∈ gates →
  fold_left (λ m g, <[ApiGate.pairId g := ApiGate.name g]> m) gates
    (∅ : gmap Z string) !! ApiGate.pairId g = Some (ApiGate.name g).
Proof.
  induction gates as [|g0 gates IH] using rev_ind; intros Hnd Hin;
    [by apply elem_of_nil in Hin |].
  rewrite fold_left_app. simpl.
  rewrite fmap_app in Hnd. apply NoDup_app in Hnd as (Hnd & Hdisj & _).
  apply elem_of_app in Hin as [Hin | ->%list_elem_of_singleton].
  - rewrite lookup_insert_ne; [by apply IH |].
    intros Heq. apply (Hdisj (ApiGate.pairId g)); [by apply list_elem_of_fmap_2 |].
    rewrite <- Heq. left.
  - apply lookup_insert_eq.
Qed.

Lemma loaded_checkpoints_absent gates k :
  k ∉ ApiGate.pairId <$> gates →
  fold_left (λ m g, with_checkpoints g m) gates (∅ : gmap Z (list LatLon.t)) !! k = None.
Proof.
  induction gates as [|g0 gates IH] using rev_ind; intros Hk; [done |].
  rewrite fold_left_app. simpl. rewrite fmap_app, not_elem_of_app in Hk.
  destruct Hk as [Hk Hk0]. unfold with_checkpoints.
  destruct (ApiGate.checkpoints g0); [| by apply IH].
  rewrite lookup_insert_ne; [by apply IH |].
  intros Heq. apply Hk0. rewrite <- Heq. left.
Qed.

Lemma loaded_checkpoints_lookup gates g :
  NoDup (ApiGate.pairId <$> gates) → g ∈ gates →
  checkpoints_of (fold_left (λ m g, with_checkpoints g m) gates ∅) (ApiGate.pairId g)
    = default [] (ApiGate.checkpoints g).
Proof.
  unfold checkpoints_of.
  induction gates as [|g0 gates IH] using rev_ind; intros Hnd Hin;
    [by apply elem_of_nil in Hin |].
  rewrite fold_left_app. simpl.
  rewrite fmap_app in Hnd. apply NoDup_app in Hnd as (Hnd & Hdisj & _).
  assert (∀ x, x ∈ gates → ApiGate.pairId x ≠ ApiGate.pairId g0) as Hother.
  { intros x Hx Heq. apply (Hdisj (ApiGate.pairId x)); [by apply list_elem_of_fmap_2 |].
    rewrite Heq. left. }
  apply elem_of_app in Hin as [Hin | ->%list_elem_of_singleton].
  - unfold with_checkpoints. destruct (ApiGate.checkpoints g0); [| by apply IH].
    rewrite lookup_insert_ne; [by apply IH |]. intros Heq. by apply (Hother g).
  - unfold with_checkpoints. destruct (ApiGate.checkpoints g0) as [l|] eqn:Hl.
    + rewrite lookup_insert_eq. simpl. apply copy_checkpoints.
    + rewrite loaded_checkpoints_absent; [done |].
      intros (x & Heq & Hx)%list_elem_of_fmap. by apply (Hother x).
Qed.

(** The aggregator on loaded gates, for maps that hold the entries of the
    payload. *)
Lemma gatePairs_loaded cps names gates :
  NoDup (ApiGate.pairId <$> gates) →
  Forall (λ g, ApiGate.name g ≠ "") gates →
  (∀ g, g ∈ gates →
        names !! ApiGate.pairId g = Some (ApiGate.name g) ∧
        checkpoints_of cps (ApiGate.pairId g) = default [] (ApiGate.checkpoints g)) →
  gatePairs cps names (gates ≫= (λ g, [loaded_start g; loaded_end g]))
    = loaded_pair <$> gates.
Proof.
  induction gates as [|g gates IH] using rev_ind; intros Hnd Hnames Hmaps; [done |].
  rewrite bind_app, fmap_app. csimpl.
  rewrite fmap_app in Hnd. apply NoDup_app in Hnd as (Hnd & Hdisj & _).
  rewrite Forall_app, Forall_singleton in Hnames. destruct Hnames as [Hnames Hname].
  rewrite (gatePairs_fresh_pair cps names _ (loaded_start g) (loaded_end g)); try done.
  - rewrite IH; [| done | done | intros x Hx; apply Hmaps, elem_of_app; by left].
    f_equal. unfold loaded_pair. simpl.
    destruct (Hmaps g) as [-> ->]; [apply elem_of_app; right; left |].
    do 2 f_equal. unfold js_or. simpl.
    destruct (String.eqb (ApiGate.name g) "") eqn:Hx;
      [by apply String.eqb_eq in Hx |].
    simpl. by rewrite Hx.
  - simpl. intros (x & Heq & (y & Hx & Hy)%list_elem_of_bind)%list_elem_of_fmap.
    apply (Hdisj (ApiGate.pairId y)); [by apply list_elem_of_fmap_2 |].
    assert (Gate.pairId x = ApiGate.pairId y) as Hxy.
    { repeat (apply elem_of_cons in Hx as [->|Hx]); try done.
      by apply elem_of_nil in Hx. }
    rewrite <- Hxy, <- Heq. left.
Qed.

Section RoundTrip.
Variable server : Server.

(** X13. Loading and saving is a round trip on the gates: after a successful
    [loadSelectedCourse] of a course whose gates have distinct pair ids and
    non-empty names, the aggregator outputs one confirmed pair for each gate
    of the course, in the order of the course, and [gatePairsToApiPayload]
    gives back the gates of the course, with an empty array where a gate had
    no checkpoint array. *)
Theorem load_then_payload_round_trip (s : State) (cid : Z) (detail : string)
    (c : Course.t)
    (Hselected : selectedCourseId s = Some cid) (Hcid : cid ≠ 0)
    (Hfetched : course_at server (length (requests s))
                = fetch_response true detail (Some c))
    (Hdistinct : NoDup (ApiGate.pairId <$> Course.gates c))
    (Hnamed : Forall (λ g, ApiGate.name g ≠ "") (Course.gates c)) :
  let s' := exec (loadSelectedCourse server) s in
  gatePairs (pairCheckpoints s') (pairNames s') (timeGates s')
    = loaded_pair <$> Course.gates c ∧
  gatePairsToApiPayload s' = saved_gate <$> Course.gates c.
Proof.
  intros s'.
  destruct (loadSelectedCourse_model server s cid detail c Hselected Hcid Hfetched)
    as (Htg & Hcp & Hnm).
  fold s' in Htg, Hcp, Hnm.
  assert (gatePairs (pairCheckpoints s') (pairNames s') (timeGates s')
          = loaded_pair <$> Course.gates c) as Hpairs.
  { rewrite Htg, Hcp, Hnm. apply gatePairs_loaded; [done | done |].
    intros g Hg. split.
    - by apply loaded_names_lookup.
    - by apply loaded_checkpoints_lookup. }
  split; [done |]. unfold gatePairsToApiPayload. rewrite Hpairs.
  clear -Hnamed. induction (Course.gates c) as [|g l IH]; [done |].
  apply Forall_cons in Hnamed as [Hname Hnamed].
  rewrite !fmap_cons, filter_cons, decide_True by done.
  change (omap api_gate (loaded_pair g :: ?l)) with
    (option_list (api_gate (loaded_pair g)) ++ omap api_gate l).
  rewrite IH by done. simpl. f_equal. unfold saved_gate. f_equal.
  - destruct (String.eqb (ApiGate.name g) "") eqn:Hx; [| done].
    by apply String.eqb_eq in Hx.
  - by destruct (ApiGate.start g).
  - by destruct (ApiGate.end_ g).
  - by rewrite copy_checkpoints.
Qed.
End RoundTrip.

Lemma load_then_payload_round_trip_witness :
  gatePairsToApiPayload loaded_state = saved_gate <$> Course.gates sample_course.
Proof.
  apply (load_then_payload_round_trip sample_server
           (set_selectedCourseId (Some 7) three_pairs_state) 7 "" sample_course).
  - reflexivity.
  - lia.
  - reflexivity.
  - simpl. repeat constructor; rewrite ?elem_of_cons, ?elem_of_nil; simpl; lia || tauto || idtac.
    all: intros H; decompose [or] H; try lia; try done.
  - repeat constructor; done.
Defined.

(** ** The selection of tracks *)

Lemma NoDup_occurrences x l : NoDup l → (occurrences x l ≤ 1)%nat.
Proof.
  unfold occurrences. induction l as [|y l IH]; intros Hnd; simpl; [lia |].
  apply NoDup_cons in Hnd as [Hy Hnd]. rewrite filter_cons.
  destruct (decide (y = x)) as [->|Hne]; [| by apply IH].
  apply occurrences_not_elem_of in Hy. unfold occurrences in Hy. simpl. lia.
Qed.

Lemma toggle_ids_NoDup x l : NoDup l → NoDup (toggle_ids x l).
Proof.
  intros Hnd. unfold toggle_ids. case_decide as Hi.
  - eapply sublist_NoDup; [exact Hnd | apply sublist_delete].
  - apply NoDup_app. split_and!; [done | | apply NoDup_singleton].
    intros y Hy ->%list_elem_of_singleton. by apply Hi, indexOf_elem_of.
Qed.

(** X14. On a selection without repeated ids, [toggleTrack(id)] flips whether
    [id] is selected ([isSelected]), leaves every other id as it was, keeps
    the selection free of repeats, and does not touch the tracks. *)
Theorem toggleTrack_flips_isSelected (trackId : string) (s : State)
    (Hnodup : NoDup (selectedTrackIds s)) :
  let s' := exec (toggleTrack trackId) s in
  isSelected trackId s' = negb (isSelected trackId s) ∧
  (∀ x, x ≠ trackId → isSelected x s' = isSelected x s) ∧
  NoDup (selectedTrackIds s') ∧
  tracks s' = tracks s.
Proof.
  intros s'. subst s'. unfold isSelected.
  rewrite toggleTrack_tracks, toggleTrack_selectedTrackIds.
  split_and!; [| | by apply toggle_ids_NoDup | done].
  - pose proof (NoDup_occurrences trackId _ Hnodup) as Hle.
    pose proof (toggle_ids_occurrences trackId (selectedTrackIds s)) as Hocc.
    destruct (decide (trackId ∈ selectedTrackIds s)) as [Hin|Hnin].
    + rewrite (bool_decide_eq_true_2 _ Hin). simpl. apply bool_decide_eq_false.
      rewrite occurrences_elem_of, Hocc. intros Hne. apply Hne. lia.
    + rewrite (bool_decide_eq_false_2 _ Hnin). simpl. apply bool_decide_eq_true.
      rewrite occurrences_elem_of, Hocc. lia.
  - intros x Hx. apply bool_decide_ext. by apply toggle_ids_other.
Qed.

Lemma toggleTrack_flips_isSelected_witness :
  isSelected "1700000000300_0"
    (exec (toggleTrack "1700000000300_0")
       (set_selectedTrackIds ["1700000000100_0"; "1700000000300_0"] createState))
  = false.
Proof.
  apply (toggleTrack_flips_isSelected "1700000000300_0"
           (set_selectedTrackIds ["1700000000100_0"; "1700000000300_0"] createState)).
  simpl. repeat constructor; rewrite ?elem_of_cons, ?elem_of_nil;
    intros H; decompose [or] H; done.
Defined.

Lemma removeTrack_model x s :
  let s' := exec (removeTrack x) s in
  tracks s' = filter (λ t0, Track.id t0 ≠ x) (tracks s) ∧
  selectedTrackIds s' =
    (if decide (x ∈ selectedTrackIds s)
     then delete (Z.to_nat (indexOf x (selectedTrackIds s))) (selectedTrackIds s)
     else selectedTrackIds s).
Proof.
  unfold removeTrack, exec, bind, get_state. simpl.
  destruct (decide (0 ≤ indexOf x (selectedTrackIds s))) as [Hi|Hi]; simpl.
  - split; [done |]. by rewrite decide_True by (by apply indexOf_elem_of).
  - split; [done |]. by rewrite decide_False by (by rewrite <- indexOf_elem_of).
Qed.

(** X15. After [removeTrack(id)] no track has that id, the other tracks are
    there in their order, and one occurrence of [id] is gone from the
    selection: with a selection without repeats, [id] is no longer selected
    and every other id is selected as before. *)
Theorem removeTrack_removes_track_and_selection (trackId : string) (s : State)
    (Hnodup : NoDup (selectedTrackIds s)) :
  let s' := exec (removeTrack trackId) s in
  tracks s' = filter (λ t0, Track.id t0 ≠ trackId) (tracks s) ∧
  Forall (λ t0, Track.id t0 ≠ trackId) (tracks s') ∧
  isSelected trackId s' = false ∧
  (∀ x, x ≠ trackId → isSelected x s' = isSelected x s) ∧
  NoDup (selectedTrackIds s').
Proof.
  intros s'. destruct (removeTrack_model trackId s) as [Htr Hsel].
  fold s' in Htr, Hsel. unfold isSelected. rewrite Htr, Hsel. split_and!.
  - done.
  - apply Forall_forall. by intros t0 [? _]%list_elem_of_filter.
  - apply bool_decide_eq_false. case_decide as Hin; [| done].
    destruct (delete_indexOf trackId _ Hin) as [Hocc _].
    pose proof (NoDup_occurrences trackId _ Hnodup).
    rewrite occurrences_elem_of. intros Hne. apply Hne. lia.
  - intros x Hx. apply bool_decide_ext. case_decide as Hin; [| done].
    by apply delete_indexOf.
  - case_decide; [| done]. eapply sublist_NoDup; [exact Hnodup | apply sublist_delete].
Qed.

Lemma removeTrack_removes_track_and_selection_witness :
  Track.id <$> tracks (exec (removeTrack "1700000000100_0")
                         (set_selectedTrackIds ["1700000000100_0"; "1700000000200_0"]
                            loaded_state_with_tracks))
  = ["1700000000200_0"].
Proof.
  pose proof (removeTrack_removes_track_and_selection "1700000000100_0"
                (set_selectedTrackIds ["1700000000100_0"; "1700000000200_0"]
                   loaded_state_with_tracks)) as H.
  destruct H as (-> & _).
  - simpl. repeat constructor; rewrite ?elem_of_cons, ?elem_of_nil;
      intros H; decompose [or] H; done.
  - reflexivity.
Defined.

(** X16. [redrawTracks] draws exactly the [activeRoutes] that have at least
    one point, three layers for each (the line, the start marker and the
    end marker), in the order of the tracks; a track that is not selected or
    has no point contributes nothing, and the tracks and the selection are
    not changed. *)
Theorem redrawTracks_draws_active_routes (s : State) :
  let s' := exec redrawTracks s in
  let drawn := filter (λ t0, Track.points t0 ≠ []) (activeRoutes s) in
  length (trackLayers s') = (3 * length drawn)%nat ∧
  Forall2 (λ t0 layers,
             ∃ first final rest,
               Track.points t0 = first :: rest ∧
               last (Track.points t0) = Some final ∧
               layers =
                 [TrackLine ((λ p, LatLon.mk (Point.lat p) (Point.lon p)) <$> Track.points t0)
                    (Track.color t0);
                  TrackMarker (LatLon.mk (Point.lat first) (Point.lon first))
                    (Track.name t0 +:+ " - Start");
                  TrackMarker (LatLon.mk (Point.lat final) (Point.lon final))
                    (Track.name t0 +:+ " - End")])
    drawn (track_layers <$> drawn) ∧
  trackLayers s' = concat (track_layers <$> drawn) ∧
  tracks s' = tracks s ∧ selectedTrackIds s' = selectedTrackIds s.
Proof.
  intros s' drawn.
  assert (filter (λ t0, Track.id t0 ∈ (list_to_set (selectedTrackIds s) : gset string)
                        ∧ Track.points t0 ≠ []) (tracks s) = drawn) as Hdrawn.
  { subst drawn. unfold activeRoutes. rewrite list_filter_filter.
    apply list_filter_iff. intros t0. tauto. }
  assert (Forall (λ t0, Track.points t0 ≠ []) drawn) as Hpts.
  { apply Forall_forall. by intros t0 [? _]%list_elem_of_filter. }
  assert (trackLayers s' = concat (track_layers <$> drawn)) as Hlayers.
  { subst s'. unfold redrawTracks, exec, modify, redrawTracks_state. simpl.
    by rewrite Hdrawn. }
  assert (Forall2 (λ t0 layers,
             ∃ first final rest,
               Track.points t0 = first :: rest ∧
               last (Track.points t0) = Some final ∧
               layers =
                 [TrackLine ((λ p, LatLon.mk (Point.lat p) (Point.lon p)) <$> Track.points t0)
                    (Track.color t0);
                  TrackMarker (LatLon.mk (Point.lat first) (Point.lon first))
                    (Track.name t0 +:+ " - Start");
                  TrackMarker (LatLon.mk (Point.lat final) (Point.lon final))
                    (Track.name t0 +:+ " - End")])
            drawn (track_layers <$> drawn)) as Hshape.
  { apply Forall2_fmap_r, Forall_Forall2_diag.
    eapply Forall_impl; [exact Hpts |]. intros t0 Ht0. unfold track_layers.
    destruct (Track.points t0) as [|first rest] eqn:Hp; [done |].
    destruct (last (first :: rest)) as [final|] eqn:Hl;
      [| by apply last_None in Hl].
    exists first, final, rest. split_and!; [done | done |].
    rewrite ?Hp, fmap_last, Hl. reflexivity. }
  split_and!; try done.
  rewrite Hlayers. clear -Hshape.
  induction Hshape as [|t0 layers l ls (? & ? & ? & _ & _ & ->) _ IH]; [done |].
  simpl. rewrite IH. lia.
Qed.

(** ** Checkpoints ([addCheckpoint], [removeLastCheckpoint]) *)

(** The aggregator reads the checkpoint map through [checkpoints_of] only. *)
Lemma gatePairs_checkpoints_ext cps cps' names tg :
  (∀ k, checkpoints_of cps k = checkpoints_of cps' k) →
  gatePairs cps names tg = gatePairs cps' names tg.
Proof.
  intros Hext. unfold gatePairs. f_equal. f_equal.
  induction tg as [|g tg IH] using rev_ind; [done |].
  rewrite !groups_of_snoc, IH. unfold group_step, update_entry, fresh_entry.
  by rewrite !Hext.
Qed.

Lemma head_filter_pairId pid l p :
  NoDup (Pair.pairId <$> l) → p ∈ l → Pair.pairId p = pid →
  head (filter (λ q, Pair.pairId q = pid) l) = Some p.
Proof. intros Hnd Hp <-. by apply (head_filter_NoDup Pair.pairId). Qed.

(** X17. [addCheckpoint(pairId)] on a pair of the aggregator appends one
    checkpoint, at the position of the start gate of the pair, after the
    checkpoints the pair had, and leaves the checkpoints of the other pairs
    as they are; a following [removeLastCheckpoint(pairId)] takes it out
    again: the aggregator then outputs what it output before the two
    calls. Neither call throws. *)
Theorem addCheckpoint_removeLastCheckpoint_round_trip (pid : Z) (s : State)
    (p : Pair.t)
    (Hp : p ∈ gatePairs (pairCheckpoints s) (pairNames s) (timeGates s))
    (Hid : Pair.pairId p = pid) :
  let s1 := exec (addCheckpoint pid) s in
  let s2 := exec (removeLastCheckpoint pid) s1 in
  (addCheckpoint pid s).1 = inr tt ∧ (removeLastCheckpoint pid s1).1 = inr tt ∧
  (∃ st, Pair.start p = Some st ∧
         checkpoints_of (pairCheckpoints s1) pid =
           Pair.checkpoints p ++ [LatLon.mk (Gate.lat st) (Gate.lon st)]) ∧
  (∀ k, k ≠ pid → pairCheckpoints s1 !! k = pairCheckpoints s !! k) ∧
  timeGates s2 = timeGates s ∧ pairNames s2 = pairNames s ∧
  gatePairs (pairCheckpoints s2) (pairNames s2) (timeGates s2) =
    gatePairs (pairCheckpoints s) (pairNames s) (timeGates s).
Proof.
  intros s1 s2.
  pose proof (head_filter_pairId pid _ p
                (gatePairs_NoDup (pairCheckpoints s) (pairNames s) (timeGates s))
                Hp Hid) as Hhead.
  pose proof Hp as (_ & Hpeq & Hc)%elem_of_gatePairs.
  assert (Pair.checkpoints p = checkpoints_of (pairCheckpoints s) pid) as Hcps
    by (rewrite Hpeq, Hid; done).
  unfold complete in Hc.
  apply andb_true_iff in Hc as [[st Hst]%bool_decide_eq_true _].
  set (cp := LatLon.mk (Gate.lat st) (Gate.lon st)).
  set (cps1 := alter (λ l, l ++ [cp]) pid
                 (match pairCheckpoints s !! pid with
                  | Some _ => pairCheckpoints s
                  | None => <[pid := []]> (pairCheckpoints s)
                  end)).
  assert (addCheckpoint pid s =
            (inr tt, redrawGates_state (set_pairCheckpoints cps1 s))) as Hadd.
  { unfold addCheckpoint, bind at 1, get_state. rewrite Hhead, Hst.
    unfold bind, modify, redrawGates. simpl. subst cps1 cp.
    by destruct (pairCheckpoints s !! pid). }
  assert (cps1 !! pid = Some (Pair.checkpoints p ++ [cp])) as Hlook.
  { subst cps1. rewrite lookup_alter_eq, Hcps. unfold checkpoints_of.
    destruct (pairCheckpoints s !! pid) as [l|] eqn:Hl.
    - by rewrite Hl.
    - by rewrite lookup_insert_eq. }
  assert (∀ k, k ≠ pid → cps1 !! k = pairCheckpoints s !! k) as Hother.
  { intros k Hk. subst cps1. rewrite lookup_alter_ne by done.
    destruct (pairCheckpoints s !! pid); [done |]. by rewrite lookup_insert_ne. }
  assert (s1 = redrawGates_state (set_pairCheckpoints cps1 s)) as Hs1
    by (subst s1; unfold exec; by rewrite Hadd).
  assert (removeLastCheckpoint pid s1 =
            (inr tt, redrawGates_state
                       (set_pairCheckpoints (<[pid := Pair.checkpoints p]> cps1) s1)))
    as Hrem.
  { unfold removeLastCheckpoint, bind at 1, get_state.
    assert (pairCheckpoints s1 = cps1) as -> by (by rewrite Hs1).
    rewrite Hlook, decide_True by (rewrite length_app; simpl; lia).
    unfold bind, modify, redrawGates. simpl.
    assert (pairCheckpoints s1 = cps1) as -> by (by rewrite Hs1).
    rewrite length_app. simpl.
    replace (pred (length (Pair.checkpoints p) + 1)) with (length (Pair.checkpoints p))
      by lia.
    by rewrite take_app_length. }
  split_and!.
  - by rewrite Hadd.
  - by rewrite Hrem.
  - exists st. split; [done |]. rewrite Hs1. simpl. unfold checkpoints_of.
    by rewrite Hlook.
  - intros k Hk. rewrite Hs1. simpl. by apply Hother.
  - subst s2. unfold exec. rewrite Hrem, Hs1. reflexivity.
  - subst s2. unfold exec. rewrite Hrem, Hs1. reflexivity.
  - subst s2. unfold exec. rewrite Hrem. simpl. rewrite Hs1. simpl.
    apply gatePairs_checkpoints_ext. intros k. unfold checkpoints_of.
    destruct (decide (k = pid)) as [->|Hk].
    + rewrite lookup_insert_eq. simpl. by rewrite Hcps.
    + by rewrite lookup_insert_ne, Hother.
Qed.

Lemma addCheckpoint_removeLastCheckpoint_round_trip_witness :
  checkpoints_of (pairCheckpoints (exec (addCheckpoint 1) loaded_state)) 1
    = [LatLon.mk 49.365 (-123.115); LatLon.mk 49.36 (-123.11)] ∧
  gatePairs
    (pairCheckpoints (exec (removeLastCheckpoint 1) (exec (addCheckpoint 1) loaded_state)))
    (pairNames (exec (removeLastCheckpoint 1) (exec (addCheckpoint 1) loaded_state)))
    (timeGates (exec (removeLastCheckpoint 1) (exec (addCheckpoint 1) loaded_state)))
  = gatePairs (pairCheckpoints loaded_state) (pairNames loaded_state)
      (timeGates loaded_state).
Proof.
  eassert (_ ∈ gatePairs (pairCheckpoints loaded_state) (pairNames loaded_state)
                 (timeGates loaded_state)) as Hp by (vm_compute; left).
  destruct (addCheckpoint_removeLastCheckpoint_round_trip 1 loaded_state _ Hp eq_refl)
    as (_ & _ & _ & _ & _ & _ & Hsame).
  split; [vm_compute; reflexivity | exact Hsame].
Defined.

(** X18. [addCheckpoint(pairId)] for an id that has no pair in the aggregator
    (no gate, or a start or an end gate alone) changes nothing and does not
    throw. *)
Theorem addCheckpoint_without_pair (pid : Z) (s : State)
    (Hnone : ∀ p, p ∈ gatePairs (pairCheckpoints s) (pairNames s) (timeGates s) →
                  Pair.pairId p ≠ pid) :
  addCheckpoint pid s = (inr tt, s).
Proof.
  unfold addCheckpoint, bind, get_state.
  assert (filter (λ p, Pair.pairId p = pid)
            (gatePairs (pairCheckpoints s) (pairNames s) (timeGates s)) = []) as ->;
    [| done].
  apply elem_of_nil_inv. intros p [Hid Hp]%list_elem_of_filter. by apply (Hnone p).
Qed.

Lemma addCheckpoint_without_pair_witness :
  addCheckpoint 2 one_pair_state = (inr tt, one_pair_state).
Proof.
  apply addCheckpoint_without_pair. intros p Hp. vm_compute in Hp.
  repeat (apply elem_of_cons in Hp as [->|Hp]); try (by apply elem_of_nil in Hp).
  simpl. lia.
Defined.

(** ** The markers follow the gate model *)

#[local] Instance same_view_refl : Reflexive same_view.
Proof. by intros s. Qed.

#[local] Instance same_view_trans : Transitive same_view.
Proof.
  intros s1 s2 s3 ((? & ? & ?) & ? & ?) ((? & ? & ?) & ? & ?).
  unfold same_view, same_gates. split_and!; congruence.
Qed.

Lemma same_view_bind {A B} (m : Eff A) (k : A → Eff B) :
  keeps same_view m → (∀ a, keeps same_view (k a)) → keeps same_view (bind m k).
Proof. apply keeps_bind; typeclasses eauto. Qed.

Lemma same_view_try_catch {A} (m : Eff A) (h : string → Eff A) :
  keeps same_view m → (∀ e, keeps same_view (h e)) → keeps same_view (try_catch m h).
Proof. apply keeps_try_catch; typeclasses eauto. Qed.

Lemma same_view_api_call {T} req (answer : nat → Fetched T) :
  keeps same_view (api_call req answer).
Proof. apply keeps_api_call. by intros s v. Qed.

Ltac keeps_view :=
  repeat first
    [ apply keeps_ret; typeclasses eauto
    | apply keeps_get_state; typeclasses eauto
    | apply same_view_bind; [| intros ?]
    | apply same_view_try_catch; [| intros ?]
    | apply same_view_api_call
    | apply keeps_modify; by intros ? ].

Section ViewFrames.
Variable server : Server.

Lemma fetchLeaderboard_same_view : keeps same_view (fetchLeaderboard server).
Proof.
  unfold fetchLeaderboard. apply same_view_bind; [keeps_view |].
  intros s. destruct (selectedCourseId s) as [cid|]; [| keeps_view].
  destruct (truthy_id (Some cid)); keeps_view.
Qed.

Lemma recalc_loop_same_view gates buffer_m todo i :
  keeps same_view (recalc_loop server gates buffer_m todo i).
Proof.
  revert i. induction todo as [|t0 rest IH]; intros i; simpl; [keeps_view |].
  apply same_view_bind; [| intros _; apply IH].
  unfold store_segmentTimes. destruct (Track.points t0); keeps_view.
Qed.

Lemma recalcAllSegmentTimes_same_view :
  keeps same_view (recalcAllSegmentTimes server).
Proof.
  unfold recalcAllSegmentTimes. apply same_view_bind; [keeps_view |].
  intros s. destruct (tracks s); [keeps_view |].
  destruct (gatePairsToApiPayload s); [keeps_view |].
  apply recalc_loop_same_view.
Qed.
End ViewFrames.

Lemma redrawGates_state_in_sync s : markers_in_sync (redrawGates_state s).
Proof. split; reflexivity. Qed.

Lemma markers_in_sync_same_view s s' :
  markers_in_sync s → same_view s s' → markers_in_sync s'.
Proof.
  intros [Hg Hc] ((Htg & Hcp & Hnm) & Hgm & Hcm). unfold markers_in_sync.
  by rewrite Hgm, Hcm, Htg, Hcp, Hnm.
Qed.

(** X19. Every operation on the gates that ends with a redraw leaves the
    markers in step with the model, whatever they were before: after
    [startNewCourse], [deselectCourse], [addGatePair], [startEditing],
    [saveAndConfirmGate], [removeGatePair] and [clearAllGates] there is one
    gate marker for each gate, in order, and the checkpoint markers are
    those of the pairs of the aggregator; the requests that follow the
    redraw do not touch them. *)
Theorem gate_operations_leave_markers_in_sync
    (server : Server) (s : State) (c : LatLon.t) (now pid : Z) :
  markers_in_sync (exec startNewCourse s) ∧
  markers_in_sync (exec deselectCourse s) ∧
  markers_in_sync (exec (addGatePair c now) s) ∧
  markers_in_sync (exec (startEditing pid) s) ∧
  markers_in_sync (exec (saveAndConfirmGate server pid) s) ∧
  markers_in_sync (exec (removeGatePair server pid) s) ∧
  markers_in_sync (exec (clearAllGates server) s).
Proof.
  split_and!; try apply redrawGates_state_in_sync.
  - unfold saveAndConfirmGate, exec, bind at 1, get_state.
    match goal with
    | |- markers_in_sync (snd (bind (modify ?f1) (λ _, bind (modify ?f2) _) s)) =>
        change (markers_in_sync
                  (exec (fetchLeaderboard server)
                     (exec (recalcAllSegmentTimes server)
                        (redrawGates_state (f2 (f1 s))))))
    end.
    eapply markers_in_sync_same_view; [apply redrawGates_state_in_sync |].
    etrans; [apply recalcAllSegmentTimes_same_view | apply fetchLeaderboard_same_view].
  - match goal with
    | |- markers_in_sync (exec (removeGatePair server pid) s) =>
        change (markers_in_sync
                  (exec (recalcAllSegmentTimes server)
                     (redrawGates_state
                        (set_pairNames (delete pid (pairNames s))
                           (set_pairCheckpoints (delete pid (pairCheckpoints s))
                              (set_timeGates
                                 (filter (λ g, Gate.pairId g ≠ pid) (timeGates s)) s))))))
    end.
    eapply markers_in_sync_same_view; [apply redrawGates_state_in_sync |].
    apply recalcAllSegmentTimes_same_view.
  - change (markers_in_sync
              (exec (recalcAllSegmentTimes server)
                 (redrawGates_state
                    (set_pairNames ∅ (set_pairCheckpoints ∅ (set_timeGates [] s)))))).
    eapply markers_in_sync_same_view; [apply redrawGates_state_in_sync |].
    apply recalcAllSegmentTimes_same_view.
Qed.

Section LoadedMarkers.
Variable server : Server.

Lemma alert_same_view msg : keeps same_view (alert msg).
Proof. unfold alert. keeps_view. Qed.

Lemma loadSelectedCourse_view s cid detail c :
  selectedCourseId s = Some cid → cid ≠ 0 →
  course_at server (length (requests s)) = fetch_response true detail (Some c) →
  markers_in_sync (exec (loadSelectedCourse server) s).
Proof.
  intros Hid Hcid Hresp.
  pose (s1 := set_requests (requests s ++ [GetCourse cid]) s).
  pose (s4 := fold_left load_gate (Course.gates c)
                (set_pairNames ∅ (set_pairCheckpoints ∅ (set_timeGates []
                   (set_isCreatingCourse false (set_selectedCourse (Some c) s1)))))).
  pose (s5 := redrawGates_state (set_bufferMeters (Course.buffer_m c) s4)).
  pose (rest := try_catch (bind (fetchLeaderboard server)
                             (λ _, recalcAllSegmentTimes server))
                  (λ e, alert ("Load failed: " +:+ e))).
  assert (exec (loadSelectedCourse server) s = exec rest s5) as ->.
  { unfold loadSelectedCourse, exec, bind at 1, get_state. rewrite Hid.
    assert (truthy_id (Some cid) = true) as ->.
    { simpl. apply negb_true_iff. by apply Z.eqb_neq. }
    rewrite (try_catch_bind_ok _ _ _ s c s1);
      [reflexivity | unfold api_call; by rewrite Hresp]. }
  eapply markers_in_sync_same_view; [apply redrawGates_state_in_sync |].
  apply same_view_try_catch; [| intros e; apply alert_same_view].
  apply same_view_bind; [apply fetchLeaderboard_same_view |].
  intros _. apply recalcAllSegmentTimes_same_view.
Qed.

(** X20. After a successful [loadSelectedCourse] the markers are those of the
    loaded gates and pairs, and none of them can be dragged: the gates of a
    loaded course are locked until a pair is put in edit mode. *)
Theorem loadSelectedCourse_locks_markers (s : State) (cid : Z) (detail : string)
    (c : Course.t)
    (Hselected : selectedCourseId s = Some cid) (Hcid : cid ≠ 0)
    (Hfetched : course_at server (length (requests s))
                = fetch_response true detail (Some c)) :
  let s' := exec (loadSelectedCourse server) s in
  markers_in_sync s' ∧
  length (gateMarkers s') = (2 * length (Course.gates c))%nat ∧
  Forall (λ m, draggable m = false) (gateMarkers s' ++ checkpointMarkers s').
Proof.
  intros s'.
  pose proof (loadSelectedCourse_view s cid detail c Hselected Hcid Hfetched) as Hsync.
  fold s' in Hsync. destruct Hsync as [Hgm Hcm].
  destruct (loadSelectedCourse_model server s cid detail c Hselected Hcid Hfetched)
    as (Htg & _ & _).
  fold s' in Htg.
  assert (Forall (λ g, Gate.confirmed g = true ∧ Gate.editing g = false)
            (timeGates s')) as Hall.
  { rewrite Htg. apply Forall_forall. intros g (a & Hg & _)%list_elem_of_bind.
    repeat (apply elem_of_cons in Hg as [->|Hg]); try done.
    by apply elem_of_nil in Hg. }
  split_and!; [by split | |].
  - rewrite Hgm, length_fmap, Htg. clear.
    induction (Course.gates c) as [|g l IH]; [done |]. csimpl. rewrite IH. lia.
  - apply Forall_app. split.
    + rewrite Hgm. apply Forall_fmap. eapply Forall_impl; [exact Hall |].
      intros g [Hc He]. simpl. by rewrite Hc, He.
    + rewrite Hcm. apply Forall_concat, Forall_fmap.
      eapply Forall_impl; [apply gatePairs_all_confirmed, Hall |].
      intros p [_ He]. simpl. unfold checkpoint_markers.
      apply Forall_forall. intros m (i & cp & -> & _)%elem_of_lookup_imap.
      done.
Qed.
End LoadedMarkers.

Lemma loadSelectedCourse_locks_markers_witness :
  length (gateMarkers loaded_state) = 4%nat ∧
  Forall (λ m, draggable m = false)
    (gateMarkers loaded_state ++ checkpointMarkers loaded_state).
Proof.
  apply (loadSelectedCourse_locks_markers sample_server
           (set_selectedCourseId (Some 7) three_pairs_state) 7 "" sample_course);
    [reflexivity | lia | reflexivity].
Defined.

(** ** Uploaded tracks ([processFile]) *)

Section Uploads.
Variable server : Server.

Lemma recalc_results_ids_colors answers n todo :
  Track.id <$> recalc_results answers n todo = Track.id <$> todo ∧
  Track.color <$> recalc_results answers n todo = Track.color <$> todo.
Proof.
  revert n. induction todo as [|t0 rest IH]; intros n; simpl; [done |].
  destruct (has_points t0); csimpl.
  - destruct (IH (S n)) as [-> ->]. done.
  - destruct (IH n) as [-> ->]. done.
Qed.

Lemma recalc_loop_selection gates buffer_m todo i s :
  selectedTrackIds (exec (recalc_loop server gates buffer_m todo i) s)
    = selectedTrackIds s.
Proof.
  revert i s. induction todo as [|t1 l IH]; intros i s; [done |].
  simpl. unfold exec, bind at 1.
  destruct (Track.points t1).
  - simpl. etrans; [apply IH | reflexivity].
  - unfold try_catch, bind. rewrite api_call_segments.
    destruct (segments_at server (length (requests s))) as [?|[] ? [?|]];
      simpl; (etrans; [apply IH | reflexivity]).
Qed.

Lemma recalcAllSegmentTimes_selection s :
  selectedTrackIds (exec (recalcAllSegmentTimes server) s) = selectedTrackIds s.
Proof.
  unfold recalcAllSegmentTimes, exec, bind, get_state.
  destruct (tracks s); [done |].
  destruct (gatePairsToApiPayload s); [done |]. apply recalc_loop_selection.
Qed.

Lemma recalcAllSegmentTimes_ids_colors s :
  Track.id <$> tracks (exec (recalcAllSegmentTimes server) s) = Track.id <$> tracks s ∧
  Track.color <$> tracks (exec (recalcAllSegmentTimes server) s)
    = Track.color <$> tracks s ∧
  selectedTrackIds (exec (recalcAllSegmentTimes server) s) = selectedTrackIds s.
Proof.
  destruct (gatePairsToApiPayload s) as [|a gates] eqn:Hpayload.
  - unfold recalcAllSegmentTimes, exec, bind, get_state.
    destruct (tracks s) as [|t0 ts] eqn:Htr; simpl; [by rewrite Htr |].
    rewrite Hpayload. simpl. rewrite Htr, <- !list_fmap_compose. done.
  - assert (gatePairsToApiPayload s ≠ []) as Hne by (by rewrite Hpayload).
    destruct (recalcAllSegmentTimes_closed_form server s Hne) as [-> _].
    destruct (recalc_results_ids_colors (segments_at server) (length (requests s))
                (tracks s)) as [-> ->].
    split_and!; [done | done |]. apply recalcAllSegmentTimes_selection.
Qed.

(** X21. [processFile], once the upload has answered: the new tracks come
    after the tracks there were and every one of them is selected, under the
    id made of the clock and of its index in the answer; the colour of a new
    track is the entry of the palette at its position among all tracks
    modulo the size of the palette, so it is always one of the eight
    colours. *)
Theorem processFile_selects_and_colours (now : nat → Z)
    (data_tracks : list (string * list Point.t)) (s : State) :
  let s' := exec (processFile_loaded server now data_tracks) s in
  let ids := imap (λ i _, pretty (now i) +:+ "_" +:+ pretty i) data_tracks in
  Track.id <$> tracks s' = (Track.id <$> tracks s) ++ ids ∧
  selectedTrackIds s' = selectedTrackIds s ++ ids ∧
  ∃ colours,
    Track.color <$> tracks s' = (Track.color <$> tracks s) ++ colours ∧
    length colours = length data_tracks ∧
    ∀ i col, colours !! i = Some col →
      trackColors !! ((length (tracks s) + i) mod 8)%nat = Some col.
Proof.
  intros s' ids.
  set (newTracks :=
         imap (λ i t0,
                 Track.mk (pretty (now i) +:+ "_" +:+ pretty i) (fst t0) (snd t0)
                   (default "" (trackColors !! ((length (tracks s) + i) mod length trackColors)%nat))
                   None) data_tracks).
  set (s2 := redrawTracks_state
               (set_selectedTrackIds (selectedTrackIds s ++ (Track.id <$> newTracks))
                  (set_tracks (tracks s ++ newTracks) s))).
  assert (Track.id <$> tracks s' = Track.id <$> tracks s2 ∧
          Track.color <$> tracks s' = Track.color <$> tracks s2 ∧
          selectedTrackIds s' = selectedTrackIds s2) as (Hid & Hcol & Hsel).
  { assert (s' = if existsb Pair.confirmed
                         (gatePairs (pairCheckpoints s2) (pairNames s2) (timeGates s2))
                  then exec (recalcAllSegmentTimes server) s2 else s2) as ->.
    { subst s'. unfold processFile_loaded, exec, bind, get_state, modify, redrawTracks.
      simpl. fold newTracks. fold s2.
      by destruct (existsb Pair.confirmed _). }
    destruct (existsb Pair.confirmed _); [| done].
    apply recalcAllSegmentTimes_ids_colors. }
  assert (Track.id <$> newTracks = ids) as Hids.
  { subst newTracks ids. rewrite fmap_imap. done. }
  rewrite Hid, Hcol, Hsel. simpl. rewrite !fmap_app, Hids.
  split_and!; [done | done |].
  exists (Track.color <$> newTracks). split_and!; [done | |].
  - subst newTracks. by rewrite length_fmap, length_imap.
  - intros i col. subst newTracks. rewrite fmap_imap, list_lookup_imap. simpl.
    destruct (data_tracks !! i); [| done]. intros [= <-].
    change 8%nat with (length trackColors).
    assert ((length (tracks s) + i) mod length trackColors < length trackColors)%nat
      as Hlt by (apply Nat.mod_upper_bound; discriminate).
    apply lookup_lt_is_Some in Hlt as [col Hc]. simpl in Hc |- *. by rewrite Hc.
Qed.
End Uploads.

(** ** Renaming a pair ([updatePairName]) *)

(** X22. After [updatePairName(pairId, newName)] with a non-empty name, the
    aggregator gives that name to the pair of that id, whatever names its
    gates carry, and outputs the pairs of the other ids exactly as before;
    the gates are not touched. *)
Theorem updatePairName_renames_one_pair (pid : Z) (newName : string) (s : State)
    (Hname : newName ≠ "") :
  let s' := exec (updatePairName pid newName) s in
  timeGates s' = timeGates s ∧
  (∀ p, p ∈ gatePairs (pairCheckpoints s') (pairNames s') (timeGates s') →
        Pair.pairId p = pid → Pair.name p = newName) ∧
  (∀ p, Pair.pairId p ≠ pid →
        p ∈ gatePairs (pairCheckpoints s') (pairNames s') (timeGates s') ↔
        p ∈ gatePairs (pairCheckpoints s) (pairNames s) (timeGates s)).
Proof.
  intros s'.
  assert (timeGates s' = timeGates s) as Htg by reflexivity.
  assert (pairCheckpoints s' = pairCheckpoints s) as Hcp by reflexivity.
  assert (pairNames s' = <[pid := newName]> (pairNames s)) as Hnm by reflexivity.
  rewrite Htg, Hcp, Hnm. split_and!; [done | |].
  - intros p (_ & -> & _)%elem_of_gatePairs Hid. simpl in *. subst pid.
    unfold pair_name. rewrite lookup_insert_eq. unfold js_or. simpl.
    destruct (String.eqb newName "") eqn:Hx; [by apply String.eqb_eq in Hx |].
    simpl. by rewrite Hx.
  - intros p Hid. rewrite !elem_of_gatePairs.
    assert (pair_of (pairCheckpoints s) (<[pid := newName]> (pairNames s))
              (Pair.pairId p) (timeGates s)
            = pair_of (pairCheckpoints s) (pairNames s) (Pair.pairId p) (timeGates s))
      as ->; [| done].
    unfold pair_of, pair_name. by rewrite lookup_insert_ne.
Qed.

Lemma updatePairName_renames_one_pair_witness :
  Pair.name <$>
    gatePairs (pairCheckpoints (exec (updatePairName 2 "Summit") loaded_state))
      (pairNames (exec (updatePairName 2 "Summit") loaded_state))
      (timeGates (exec (updatePairName 2 "Summit") loaded_state))
  = ["Ridge"; "Summit"] ∧
  timeGates (exec (updatePairName 2 "Summit") loaded_state) = timeGates loaded_state.
Proof.
  split; [vm_compute; reflexivity |].
  by apply (updatePairName_renames_one_pair 2 "Summit" loaded_state).
Defined.
